(** * upnpport: the reconciliation engine of [upnpport/__main__.py]

    A shallow embedding of the program that keeps a router's UPnP
    port-forwarding table in line with a list of desired rules:

    - [Py]: the Python builtins the program leans on ([str], [int],
      [str.lower], [str.split], the character classes of [re]);
    - [Regex]: [re.match] by Brzozowski derivatives, and the tokenizer
      [re.split(r'\s+|->|:', _)];
    - [Config]: the desired rule set, a dict keyed by [(port, protocol)];
    - the router client ([call], [get_existing_rules]) and the reconciler
      ([open_ports]) in a state-and-exception monad that records every
      invocation of the external tool and every printed line;
    - the loop of [run] as a labelled step function ([step], [exec]), with
      the SIGUSR1 reload handler and KeyboardInterrupt as labels that can
      come between any two steps of the program, over a store of dict
      objects so that aliasing is explicit.  In [step] one signal is
      delivered at a time, between two steps: a handler runs to its end,
      or to its exception, before the interrupted code goes on;
      [step_async] adds the reload handled inside another reload handler
      and the reload handled inside the finaliser of the tool's process
      object.

    Text is modelled as [string]: the decoded output of the tool is taken to
    be ASCII, the characters above 127 standing for code points that are
    neither decimal digits nor white space. *)

From Stdlib Require Import ZArith List String Ascii Bool Lia DecimalString.
From Stdlib Require Import DecimalPos.
Import ListNotations.

Local Open Scope string_scope.
Local Open Scope list_scope.
Local Open Scope Z_scope.

Set Implicit Arguments.

(* ================================================================= *)
(** ** Python builtins *)

Module Py.

(** The exceptions the program can meet. *)
Inductive exn : Type :=
| RuntimeError (msg : string)
| ValueError
| IndexError
| KeyError (key : string)
| KeyboardInterrupt.

(** The outcome of a Python expression: a value or a raised exception. *)
Inductive result (A : Type) : Type :=
| Return (a : A)
| Raise (e : exn).
Arguments Return {A} a.
Arguments Raise {A} e.

Definition code (c : ascii) : N := N_of_ascii c.

(** [\s] of [re] on text, and [str.isspace]: tab, line feed, vertical tab,
    form feed, carriage return, the four separators 0x1c-0x1f, space. *)
Definition is_space (c : ascii) : bool :=
  ((9 <=? code c) && (code c <=? 13) || (28 <=? code c) && (code c <=? 32))%N.

(** [\d] of [re]: a decimal digit. *)
Definition is_digit (c : ascii) : bool :=
  ((48 <=? code c) && (code c <=? 57))%N.

Definition digit_val (c : ascii) : Z := Z.of_N (code c) - 48.

Definition is_newline (c : ascii) : bool := (code c =? 10)%N.

(** [str.lower], on ASCII letters. *)
Definition lower_char (c : ascii) : ascii :=
  if ((65 <=? code c) && (code c <=? 90))%N
  then ascii_of_N (code c + 32) else c.

Fixpoint lower (s : string) : string :=
  match s with
  | EmptyString => EmptyString
  | String c s' => String (lower_char c) (lower s')
  end.

(** [str(n)] for an integer: its decimal notation. *)
Definition str (n : Z) : string := NilZero.string_of_int (Z.to_int n).

Fixpoint lstrip (s : string) : string :=
  match s with
  | EmptyString => EmptyString
  | String c s' => if is_space c then lstrip s' else s
  end.

Fixpoint rstrip (s : string) : string :=
  match s with
  | EmptyString => EmptyString
  | String c s' =>
      let r := rstrip s' in
      if is_space c && (r =? "")%string then EmptyString else String c r
  end.

(** The digits of an integer literal: groups of digits separated by single
    underscores.  [prev] tells whether the previous character was a
    digit. *)
Fixpoint int_digits (acc : Z) (prev : bool) (s : string) : option Z :=
  match s with
  | EmptyString => if prev then Some acc else None
  | String c s' =>
      if is_digit c then int_digits (10 * acc + digit_val c) true s'
      else if (c =? "_")%char && prev then int_digits acc false s'
      else None
  end.

(** [int(s)] in base ten: white space stripped at both ends, an optional
    sign, then the digits.  [None] stands for ValueError. *)
Definition int (s : string) : option Z :=
  match rstrip (lstrip s) with
  | String "+" r => int_digits 0 false r
  | String "-" r => option_map Z.opp (int_digits 0 false r)
  | t => int_digits 0 false t
  end.

Definition cons_char (c : ascii) (l : list string) : list string :=
  match l with
  | t :: ts => String c t :: ts
  | [] => [String c EmptyString]
  end.

(** [s.split('\n')]. *)
Fixpoint split_lines (s : string) : list string :=
  match s with
  | EmptyString => [EmptyString]
  | String c s' =>
      if is_newline c then EmptyString :: split_lines s'
      else cons_char c (split_lines s')
  end.

(** [l[i]] on a list: IndexError out of range. *)
Definition index {A : Type} (l : list A) (i : nat) : result A :=
  match nth_error l i with
  | Some a => Return a
  | None => Raise IndexError
  end.

(** [int(s)] as an expression that can raise. *)
Definition int_of (s : string) : result Z :=
  match int s with
  | Some n => Return n
  | None => Raise ValueError
  end.

End Py.

(* ================================================================= *)
(** ** Regular expressions: [re.match] and [re.split] *)

Module Regex.

Inductive regex : Type :=
| Void
| Eps
| Class (p : ascii -> bool)
| Cat (r1 r2 : regex)
| Alt (r1 r2 : regex)
| Star (r : regex).

Fixpoint nullable (r : regex) : bool :=
  match r with
  | Void => false
  | Eps => true
  | Class _ => false
  | Cat r1 r2 => nullable r1 && nullable r2
  | Alt r1 r2 => nullable r1 || nullable r2
  | Star _ => true
  end.

Fixpoint deriv (c : ascii) (r : regex) : regex :=
  match r with
  | Void => Void
  | Eps => Void
  | Class p => if p c then Eps else Void
  | Cat r1 r2 =>
      if nullable r1 then Alt (Cat (deriv c r1) r2) (deriv c r2)
      else Cat (deriv c r1) r2
  | Alt r1 r2 => Alt (deriv c r1) (deriv c r2)
  | Star r1 => Cat (deriv c r1) (Star r1)
  end.

(** [re.match(r, s)] as a truth value: some prefix of [s] matches [r]. *)
Fixpoint re_match (r : regex) (s : string) : bool :=
  nullable r ||
  match s with
  | EmptyString => false
  | String c s' => re_match (deriv c r) s'
  end.

(** The strings a pattern denotes. *)
Inductive matches : regex -> string -> Prop :=
| MEps : matches Eps EmptyString
| MClass (p : ascii -> bool) (c : ascii) :
    p c = true -> matches (Class p) (String c EmptyString)
| MCat (r1 r2 : regex) (s1 s2 : string) :
    matches r1 s1 -> matches r2 s2 -> matches (Cat r1 r2) (s1 ++ s2)
| MAltL (r1 r2 : regex) (s : string) :
    matches r1 s -> matches (Alt r1 r2) s
| MAltR (r1 r2 : regex) (s : string) :
    matches r2 s -> matches (Alt r1 r2) s
| MStarNil (r : regex) : matches (Star r) EmptyString
| MStarApp (r : regex) (s1 s2 : string) :
    matches r s1 -> matches (Star r) s2 -> matches (Star r) (s1 ++ s2).

(** The pattern atoms the program and its specification use. *)
Definition dot : regex := Class (fun c => negb (Py.is_newline c)).
Definition digit : regex := Class Py.is_digit.
Definition space : regex := Class Py.is_space.
Definition chr (a : ascii) : regex := Class (Ascii.eqb a).
Definition chr_nocase (a : ascii) : regex :=
  Class (fun c => Ascii.eqb (Py.lower_char c) (Py.lower_char a)).
Definition plus (r : regex) : regex := Cat r (Star r).

(** [r'.*\d->'], the pattern [get_existing_rules] hands to
    [keep_lines]. *)
Definition digit_arrow : regex :=
  Cat (Star dot) (Cat digit (Cat (chr "-") (chr ">"))).

(** [re.split(r'\s+|->|:', s)].  The three alternatives start with
    different characters and none matches the empty string, so the split
    is a left-to-right scan; [in_run] tells that the previous character
    belonged to a run of white space, which a further white-space
    character extends.  The head of the result is the rest of the token
    being read. *)
Fixpoint re_split_from (in_run : bool) (s : string) : list string :=
  match s with
  | EmptyString => [EmptyString]
  | String c s' =>
      if Py.is_space c then
        if in_run then re_split_from true s'
        else EmptyString :: re_split_from true s'
      else if (c =? ":")%char then EmptyString :: re_split_from false s'
      else if (c =? "-")%char then
        match s' with
        | String ">" s'' => EmptyString :: re_split_from false s''
        | _ => Py.cons_char c (re_split_from false s')
        end
      else Py.cons_char c (re_split_from false s')
  end.

Definition re_split (s : string) : list string := re_split_from false s.

End Regex.

(* ================================================================= *)
(** ** The desired rule set: class [Config] *)

(** A forwarding rule as the program passes it around: a dict with the keys
    ['port'] and ['protocol'] and, only when it was set, ['external_port'].
    Equality of two such dicts is equality of the records. *)
Record rule : Type := {
  port : Z;
  protocol : string;
  external_port : option Z
}.

Definition rule_eqb (r1 r2 : rule) : bool :=
  (port r1 =? port r2) && (protocol r1 =? protocol r2)%string &&
  match external_port r1, external_port r2 with
  | Some e1, Some e2 => e1 =? e2
  | None, None => true
  | _, _ => false
  end.

(** [rule in rules], on a list. *)
Definition rule_in (r : rule) (rules : list rule) : bool :=
  existsb (rule_eqb r) rules.

Module Config.

Import Py.

(** [self._rules]: a dict from [(port, protocol)] to
    [{'external_port': e}], in insertion order. *)
Definition key : Type := (Z * string)%type.
Definition dict : Type := list (key * Z).

Definition key_eqb (k1 k2 : key) : bool :=
  (fst k1 =? fst k2) && (snd k1 =? snd k2)%string.

(** [d[k] = v]: the value is replaced where the key is, a new key goes to
    the end. *)
Fixpoint dict_set (k : key) (v : Z) (d : dict) : dict :=
  match d with
  | [] => [(k, v)]
  | (k', v') :: d' =>
      if key_eqb k k' then (k', v) :: d' else (k', v') :: dict_set k v d'
  end.

(** The rule [__iter__] yields for one item of [self._rules]. *)
Definition rule_of_item (item : key * Z) : rule :=
  let '((port, protocol), rest) := item in
  {| port := port;
     protocol := protocol;
     external_port := if port =? rest then None else Some rest |}.

(** [list(d-as-Config)]: everything [__iter__] yields over the dict
    [d]. *)
Definition iter (d : dict) : list rule := map rule_of_item d.

(** [external_port or port]. *)
Definition or_port (external_port : option Z) (port : Z) : Z :=
  match external_port with
  | Some e => if e =? 0 then port else e
  | None => port
  end.

(** The store of dict objects and the Config instance in it: [_rules] is
    the address of the dict the attribute is bound to. *)
Record mem : Type := {
  heap : list dict;
  _rules : nat
}.

Definition deref (m : mem) (a : nat) : dict := nth a (heap m) [].

Definition current (m : mem) : dict := deref m (_rules m).

Fixpoint update {A : Type} (a : nat) (x : A) (l : list A) : list A :=
  match l, a with
  | [], _ => []
  | _ :: l', O => x :: l'
  | y :: l', S a' => y :: update a' x l'
  end.

(** [self._rules = {}]: a fresh dict object, and the attribute rebound to
    it. *)
Definition fresh (m : mem) : mem :=
  {| heap := heap m ++ [[]]; _rules := List.length (heap m) |}.

(** [add]: the dict [self._rules] is bound to is changed in place. *)
Definition add (port : Z) (external_port : option Z) (protocol : string)
    (m : mem) : mem :=
  let external_port := or_port external_port port in
  {| heap := update (_rules m)
               (dict_set (port, protocol) external_port (current m))
               (heap m);
     _rules := _rules m |}.

(** One record of the loaded YAML document: a mapping in which each of
    the three keys may be absent.  The values are taken well typed. *)
Record yaml_rule : Type := {
  y_port : option Z;
  y_external_port : option Z;
  y_protocol : option string
}.

(** What [config_file.open()] and [yaml.load] give: FileNotFoundError, or
    the document, a sequence of records (the empty sequence stands for
    every falsy document). *)
Inductive config_file : Type :=
| Missing
| Document (config : list yaml_rule).

(** [rule[k]] on a record: KeyError when the key is absent. *)
Definition getitem {A : Type} (k : string) (field : option A) : result A :=
  match field with
  | Some v => Return v
  | None => Raise (KeyError k)
  end.

(** The body of [for rule in config: self.add(...)]. *)
Fixpoint add_all (config : list yaml_rule) (m : mem) : result unit * mem :=
  match config with
  | [] => (Return tt, m)
  | rule :: config' =>
      match getitem "port" (y_port rule) with
      | Raise e => (Raise e, m)
      | Return port =>
          let external_port := y_external_port rule in
          match getitem "protocol" (y_protocol rule) with
          | Raise e => (Raise e, m)
          | Return protocol =>
              add_all config' (add port external_port protocol m)
          end
      end
  end.

Definition parse_rules (f : config_file) (m : mem) : result unit * mem :=
  let m := fresh m in
  match f with
  | Missing => (Return tt, m)
  | Document config =>
      match config with
      | [] => (Return tt, m)
      | _ => add_all config m
      end
  end.

(** [Config(config_file)], from an empty store. *)
Definition init (f : config_file) : result unit * mem :=
  parse_rules f (fresh {| heap := []; _rules := O |}).

(** [rules()]: [list(self)]. *)
Definition rules (m : mem) : list rule := iter (current m).

End Config.

(** One configured path as the file system answers for it at the time of a
    call: what [is_file()] says and what opening it gives. *)
Record path : Type := {
  is_file : bool;
  opened : Config.config_file
}.

Definition find_config (config_files : list path) : Py.result path :=
  match find is_file (rev config_files) with
  | Some config_file => Py.Return config_file
  | None => Py.Raise (Py.RuntimeError "No configuration found on given paths.")
  end.

(* ================================================================= *)
(** ** The router client and the reconciler *)

(** What a run leaves behind, in order: the invocations of the external
    tool, the printed lines, the sleeps. *)
Inductive event : Type :=
| Exec (argv : list string)
| Print (line : string)
| Sleep (seconds : Z).

Definition format (rule : rule) : string :=
  (Py.str (port rule) ++ "->"
   ++ Py.str (match external_port rule with
              | Some e => e
              | None => port rule
              end)
   ++ " " ++ protocol rule)%string.

Definition keep_lines (lines : list string) (regex : Regex.regex)
    : list string :=
  filter (Regex.re_match regex) lines.

(** [rule_str_split] once the empty first token has been deleted. *)
Definition tokens (rule_str : string) : list string :=
  let rule_str_split := Regex.re_split rule_str in
  match rule_str_split with
  | EmptyString :: rest => rest
  | _ => rule_str_split
  end.

(** The body of the loop of [get_existing_rules] on one kept line. *)
Definition parse_rule_str (rule_str : string) : Py.result rule :=
  let rule_str_split := tokens rule_str in
  match Py.index rule_str_split 4 with
  | Py.Raise e => Py.Raise e
  | Py.Return t4 =>
  match Py.int_of t4 with
  | Py.Raise e => Py.Raise e
  | Py.Return port =>
  match Py.index rule_str_split 1 with
  | Py.Raise e => Py.Raise e
  | Py.Return t1 =>
  let protocol := Py.lower t1 in
  match Py.index rule_str_split 2 with
  | Py.Raise e => Py.Raise e
  | Py.Return t2 =>
  match Py.int_of t2 with
  | Py.Raise e => Py.Raise e
  | Py.Return ext =>
      Py.Return {| port := port;
                   protocol := protocol;
                   external_port := if ext =? port then None else Some ext |}
  end end end end end.

Fixpoint parse_rules_str (rules_str : list string) : Py.result (list rule) :=
  match rules_str with
  | [] => Py.Return []
  | rule_str :: rest =>
      match parse_rule_str rule_str with
      | Py.Raise e => Py.Raise e
      | Py.Return rule =>
          match parse_rules_str rest with
          | Py.Raise e => Py.Raise e
          | Py.Return rules => Py.Return (rule :: rules)
          end
      end
  end.

(** [get_existing_rules] after the tool has answered: from the decoded
    output to the rules. *)
Definition parse_listing (output : string) : Py.result (list rule) :=
  let output := Py.split_lines output in
  let rules_str := keep_lines output Regex.digit_arrow in
  parse_rules_str rules_str.

Definition list_command : list string := ["upnpc"; "-l"].

(** The command [open_ports] builds for a rule. *)
Definition redirect_command (rule : rule) : list string :=
  ["upnpc"; "-r"; Py.str (port rule)]
  ++ match external_port rule with
     | Some e => [Py.str e]
     | None => []
     end
  ++ [protocol rule].

(** Where [run] stands: about to call [open_ports]; in [open_ports] with
    the listing, the iteration of the rules not begun; in the [for] loop,
    the generator of [__iter__] reading the dict object at address [d],
    which held [len] items when the iteration began, [pos] of them already
    yielded; asleep; returned after KeyboardInterrupt; ended by an uncaught
    exception. *)
Inductive control : Type :=
| AtPass
| AtFor (existing_rules : list rule)
| InFor (existing_rules : list rule) (d len pos : nat)
| Sleeping
| Returned
| Crashed (e : Py.exn).

(** What moves [run]: the program's own next step, the signal SIGUSR1 (with
    what the file system answers for the configured paths when the handler
    runs), and the interruption that raises KeyboardInterrupt. *)
Inductive label : Type :=
| Tick
| SigUsr1 (config_files : list path)
| SigInt.

(** [try: ... except KeyboardInterrupt: return] around the loop body. *)
Definition except (e : Py.exn) : control :=
  match e with
  | Py.KeyboardInterrupt => Returned
  | _ => Crashed e
  end.

Definition live (c : control) : bool :=
  match c with
  | Returned | Crashed _ => false
  | _ => true
  end.

(** [sigusr1_handler]: the reload, on the store. *)
Definition sigusr1_handler (config_files : list path) (m : Config.mem)
    : Py.result unit * Config.mem * list event :=
  match find_config config_files with
  | Py.Raise e => (Py.Raise e, m, [])
  | Py.Return config_file =>
      match Config.parse_rules (opened config_file) m with
      | (Py.Raise e, m') => (Py.Raise e, m', [])
      | (Py.Return _, m') =>
          (Py.Return tt, m', [Print "Reloaded configuration file."])
      end
  end.

Section Tool.

(** The external tool and whatever it talks to: a state [W], and
    [popen argv w], the decoded standard output of the process started
    with [argv], or [None] when the executable is not found
    (FileNotFoundError), with the state afterwards. *)
Variable W : Type.
Variable popen : list string -> W -> option string * W.

(** Computations that call the tool and print: from the state of the
    world to an outcome, the state afterwards and the events emitted. *)
Definition M (A : Type) : Type := W -> Py.result A * W * list event.

Definition ret {A : Type} (a : A) : M A := fun w => (Py.Return a, w, []).

Definition raise {A : Type} (e : Py.exn) : M A :=
  fun w => (Py.Raise e, w, []).

Definition bind {A B : Type} (m : M A) (f : A -> M B) : M B :=
  fun w =>
    match m w with
    | (Py.Return a, w1, ev1) =>
        let '(r, w2, ev2) := f a w1 in (r, w2, ev1 ++ ev2)
    | (Py.Raise e, w1, ev1) => (Py.Raise e, w1, ev1)
    end.

Definition lift {A : Type} (r : Py.result A) : M A := fun w => (r, w, []).

Definition print (line : string) : M unit :=
  fun w => (Py.Return tt, w, [Print line]).

Definition call (args : list string) : M string :=
  fun w =>
    match popen args w with
    | (Some output, w') => (Py.Return output, w', [Exec args])
    | (None, w') =>
        (Py.Raise (Py.RuntimeError
           "Could not find upnpc executable, is miniupnpc installed?"),
         w', [Exec args])
    end.

Definition get_existing_rules : M (list rule) :=
  bind (call list_command) (fun output => lift (parse_listing output)).

(** The body of the loop of [open_ports] for one rule. *)
Definition enforce (existing_rules : list rule) (rule : rule) : M unit :=
  if rule_in rule existing_rules then
    print ("skipping rule " ++ format rule)
  else
    bind (print ("enforcing rule " ++ format rule)) (fun _ =>
    bind (call (redirect_command rule)) (fun _ => ret tt)).

Fixpoint for_each (rules : list rule) (body : rule -> M unit) : M unit :=
  match rules with
  | [] => ret tt
  | rule :: rest => bind (body rule) (fun _ => for_each rest body)
  end.

(** [open_ports(rules)], [rules] being what iterating the argument
    yields. *)
Definition open_ports (rules : list rule) : M unit :=
  bind get_existing_rules (fun existing_rules =>
  for_each rules (enforce existing_rules)).

(** *** The loop of [run] *)

Record machine : Type := {
  mem : Config.mem;
  world : W;
  out : list event;
  ctl : control
}.


(** A step of the program itself. *)
Definition tick (s : machine) : machine :=
  match ctl s with
  | AtPass =>
      let '(r, w', ev) := get_existing_rules (world s) in
      {| mem := mem s; world := w'; out := out s ++ ev;
         ctl := match r with
                | Py.Return existing_rules => AtFor existing_rules
                | Py.Raise e => except e
                end |}
  | AtFor existing_rules =>
      {| mem := mem s; world := world s; out := out s;
         ctl := InFor existing_rules (Config._rules (mem s))
                  (List.length (Config.current (mem s))) O |}
  | InFor existing_rules d len pos =>
      let items := Config.deref (mem s) d in
      if negb (List.length items =? len)%nat then
        {| mem := mem s; world := world s; out := out s;
           ctl := except (Py.RuntimeError
                    "dictionary changed size during iteration") |}
      else
        match nth_error items pos with
        | None =>
            {| mem := mem s; world := world s;
               out := out s ++ [Print "Sleeping for 5 minutes."; Sleep 300];
               ctl := Sleeping |}
        | Some item =>
            let '(r, w', ev) :=
              enforce existing_rules (Config.rule_of_item item) (world s) in
            {| mem := mem s; world := w'; out := out s ++ ev;
               ctl := match r with
                      | Py.Return _ => InFor existing_rules d len (S pos)
                      | Py.Raise e => except e
                      end |}
        end
  | Sleeping =>
      {| mem := mem s; world := world s; out := out s; ctl := AtPass |}
  | Returned | Crashed _ => s
  end.

(** One step under a label; a process that has returned or crashed takes
    none. *)
Definition step (l : label) (s : machine) : option machine :=
  if live (ctl s) then
    match l with
    | Tick => Some (tick s)
    | SigUsr1 config_files =>
        let '(r, m', ev) := sigusr1_handler config_files (mem s) in
        Some {| mem := m'; world := world s; out := out s ++ ev;
                ctl := match r with
                       | Py.Return _ => ctl s
                       | Py.Raise e => except e
                       end |}
    | SigInt =>
        Some {| mem := mem s; world := world s; out := out s;
                ctl := Returned |}
    end
  else None.

Fixpoint exec (ls : list label) (s : machine) : option machine :=
  match ls with
  | [] => Some s
  | l :: ls' =>
      match step l s with
      | Some s' => exec ls' s'
      | None => None
      end
  end.

End Tool.

(* ================================================================= *)
(** ** The vocabulary of the specification *)

(** The external port a rule stands for: the field, the port without it. *)
Definition effective_external_port (r : rule) : Z :=
  match external_port r with
  | Some e => e
  | None => port r
  end.

(** The field ['external_port'] is there only with a value other than the
    port. *)
Definition normalized (r : rule) : Prop :=
  match external_port r with
  | Some e => e <> port r
  | None => True
  end.

(** Equality on [(port, protocol, externalPort)] with the default applied on
    both sides. *)
Definition same_rule (r1 r2 : rule) : Prop :=
  port r1 = port r2 /\ protocol r1 = protocol r2 /\
  effective_external_port r1 = effective_external_port r2.

(** The invocations of the tool among the events, in order. *)
Fixpoint tool_calls (ev : list event) : list (list string) :=
  match ev with
  | [] => []
  | Exec argv :: ev' => argv :: tool_calls ev'
  | _ :: ev' => tool_calls ev'
  end.

Fixpoint newline_free (s : string) : bool :=
  match s with
  | EmptyString => true
  | String c s' => negb (Py.is_newline c) && newline_free s'
  end.

(** What [open_ports] leaves behind for a rule it skips, and for a rule it
    enforces. *)
Definition skipped (r : rule) : event :=
  Print ("skipping rule " ++ format r).

Definition enforced (r : rule) : list event :=
  [Print ("enforcing rule " ++ format r); Exec (redirect_command r)].

(** The add-forwarding invocation for the desired rule at key [(p, q)] with
    external port [e]: the redirect flag, the internal port, the external
    port only when it differs, the protocol. *)
Definition expected_redirect (item : Config.key * Z) : list string :=
  let '((p, q), e) := item in
  ["upnpc"; "-r"; Py.str p]
  ++ (if p =? e then [] else [Py.str e])
  ++ [q].

(** A tool that is found and prints [listing] whatever it is asked, and a
    tool that is not found; their state is trivial. *)
Definition answering (listing : string)
    : list string -> unit -> option string * unit :=
  fun _ _ => (Some listing, tt).

Definition absent : list string -> unit -> option string * unit :=
  fun _ _ => (None, tt).

(** The fault of a tool that cannot be located, and the faults of
    parsing a line of the listing. *)
Definition tool_unavailable : Py.exn :=
  Py.RuntimeError "Could not find upnpc executable, is miniupnpc installed?".

Definition parse_fault (e : Py.exn) : Prop :=
  e = Py.ValueError \/ e = Py.IndexError.

(** The external-port field is there exactly when the external port the
    rule stands for differs from its port. *)
Definition field_when_differs (r : rule) : Prop :=
  external_port r <> None <-> effective_external_port r <> port r.

(** The rule [r] is the one the kept line shows: its port is the integer
    at token 4, its protocol token 1 in lower case, the external port it
    stands for the integer at token 2, and it has the external-port field
    exactly when that integer differs from the port. *)
Definition shows (line : string) (r : rule) : Prop :=
  exists t1 t2 t4 e,
    nth_error (tokens line) 1 = Some t1 /\
    nth_error (tokens line) 2 = Some t2 /\
    nth_error (tokens line) 4 = Some t4 /\
    Py.int t2 = Some e /\ Py.int t4 = Some (port r) /\
    protocol r = Py.lower t1 /\
    effective_external_port r = e /\
    (external_port r <> None <-> e <> port r).

(** [selects P lines kept]: [kept] is [lines] without the lines that do not
    satisfy [P], in the same order. *)
Inductive selects (P : string -> Prop) : list string -> list string -> Prop :=
| selects_nil : selects P [] []
| selects_keep (l : string) (ls ks : list string) :
    P l -> selects P ls ks -> selects P (l :: ls) (l :: ks)
| selects_drop (l : string) (ls ks : list string) :
    ~ P l -> selects P ls ks -> selects P (l :: ls) ks.

(** A line that holds a decimal digit directly followed by [->]. *)
Definition has_digit_arrow (line : string) : Prop :=
  exists u d v,
    line = (u ++ String d (String "-" (String ">" v)))%string /\
    Py.is_digit d = true.

(** The shape the specification gives for the lines of interest,
    [\s*\d*\s*(TCP|UDP)\s+\d+->.*:\d+], the protocol in either case. *)
Definition spec_shape : Regex.regex :=
  let word (s : list ascii) :=
    fold_right (fun a r => Regex.Cat (Regex.chr_nocase a) r) Regex.Eps s in
  Regex.Cat (Regex.Star Regex.space)
 (Regex.Cat (Regex.Star Regex.digit)
 (Regex.Cat (Regex.Star Regex.space)
 (Regex.Cat (Regex.Alt (word ["T"; "C"; "P"]%char) (word ["U"; "D"; "P"]%char))
 (Regex.Cat (Regex.plus Regex.space)
 (Regex.Cat (Regex.plus Regex.digit)
 (Regex.Cat (Regex.chr "-")
 (Regex.Cat (Regex.chr ">")
 (Regex.Cat (Regex.Star Regex.dot)
 (Regex.Cat (Regex.chr ":") (Regex.plus Regex.digit)))))))))).

(** The rule set a configuration file holds when all of it is taken: every
    record added in turn to an empty dict, KeyError at a record without
    ['port'] or ['protocol']. *)
Fixpoint load_all (config : list Config.yaml_rule) (d : Config.dict)
    : Py.result Config.dict :=
  match config with
  | [] => Py.Return d
  | r :: config' =>
      match Config.y_port r, Config.y_protocol r with
      | None, _ => Py.Raise (Py.KeyError "port")
      | Some _, None => Py.Raise (Py.KeyError "protocol")
      | Some p, Some proto =>
          load_all config'
            (Config.dict_set (p, proto)
               (Config.or_port (Config.y_external_port r) p) d)
      end
  end.

Definition loaded (f : Config.config_file) : Py.result Config.dict :=
  match f with
  | Config.Missing => Py.Return []
  | Config.Document config => load_all config []
  end.


(** The store is in order when [_rules] is the address of a dict in it. *)
Definition bound (m : Config.mem) : Prop :=
  (Config._rules m < List.length (Config.heap m))%nat.

(** [m'] differs from [m] at most in the dict [_rules] is bound to. *)
Definition same_but_current (m m' : Config.mem) : Prop :=
  Config._rules m' = Config._rules m /\
  List.length (Config.heap m') = List.length (Config.heap m) /\
  forall a, a <> Config._rules m -> Config.deref m' a = Config.deref m a.






(** A record without one of the two required fields, and a file with such a
    record. *)
Definition missing_field (r : Config.yaml_rule) : Prop :=
  Config.y_port r = None \/ Config.y_protocol r = None.

Definition malformed (f : Config.config_file) : Prop :=
  exists config, f = Config.Document config /\ Exists missing_field config.

(* ================================================================= *)
(** ** The rest of class [Config], and [configure] *)

(** [del d[k]]: the item with the key is taken out; [None] stands for
    KeyError. *)
Fixpoint dict_del (k : Config.key) (d : Config.dict) : option Config.dict :=
  match d with
  | [] => None
  | (k', v') :: d' =>
      if Config.key_eqb k k' then Some d'
      else option_map (cons (k', v')) (dict_del k d')
  end.

(** [d.get(k)]: the value under the key, if any. *)
Fixpoint dict_get (k : Config.key) (d : Config.dict) : option Z :=
  match d with
  | [] => None
  | (k', v') :: d' => if Config.key_eqb k k' then Some v' else dict_get k d'
  end.

(** [Config.remove]: the item at [(port, protocol)] is deleted from the
    dict [_rules] is bound to; [None] stands for the KeyError of [del] on
    an absent key.  The external port plays no part. *)
Definition Config_remove (port : Z) (external_port : option Z)
    (protocol : string) (m : Config.mem) : option Config.mem :=
  let external_port := Config.or_port external_port port in
  match dict_del (port, protocol) (Config.current m) with
  | Some d =>
      Some {| Config.heap := Config.update (Config._rules m) d (Config.heap m);
              Config._rules := Config._rules m |}
  | None => None
  end.

(** A rule as a record of a YAML document. *)
Definition yaml_of_rule (r : rule) : Config.yaml_rule :=
  {| Config.y_port := Some (port r);
     Config.y_external_port := external_port r;
     Config.y_protocol := Some (protocol r) |}.

(** [Config.dump_rules]: what the file holds afterwards, as [yaml.load]
    reads it: the document of [self.rules()].  ([yaml.dump] followed by
    [yaml.load] is taken to give back a list of mappings of integers and
    strings as it was.) *)
Definition Config_dump_rules (m : Config.mem) : Config.config_file :=
  Config.Document (map yaml_of_rule (Config.rules m)).

(** What [configure] comes to: the file written, or an exception of the
    load, or the KeyError of [remove] for the key, the file left as it
    was. *)
Inductive configured : Type :=
| Wrote (f : Config.config_file)
| LoadFailed (e : Py.exn)
| NoSuchRule (k : Config.key).

Definition configure (config_file : Config.config_file) (action : string)
    (port : Z) (protocol : string) (external_port : option Z) : configured :=
  match Config.init config_file with
  | (Py.Raise e, _) => LoadFailed e
  | (Py.Return _, config) =>
      if (action =? "add")%string then
        Wrote (Config_dump_rules
                 (Config.add port external_port protocol config))
      else if (action =? "del")%string then
        match Config_remove port external_port protocol config with
        | Some config' => Wrote (Config_dump_rules config')
        | None => NoSuchRule (port, protocol)
        end
      else Wrote (Config_dump_rules config)
  end.

(** A dict as the methods of [Config] keep it: no key twice, and no
    external port 0 except for port 0. *)
Definition well_kept (d : Config.dict) : Prop :=
  NoDup (map fst d) /\
  Forall (fun item : Config.key * Z =>
            snd item <> 0 \/ snd item = fst (fst item)) d.

(** The exception of [find_config] when no configured path is a file. *)
Definition no_configuration : Py.exn :=
  Py.RuntimeError "No configuration found on given paths.".

(** What a pass leaves behind for one desired rule, the tool being
    found. *)
Definition rule_events (existing : list rule) (r : rule) : list event :=
  if rule_in r existing then [skipped r] else enforced r.

(** A tool that is found for every command but [missing], and prints
    [listing]. *)
Definition answering_but (listing : string) (missing : list string)
    : list string -> unit -> option string * unit :=
  fun argv _ =>
    if list_eq_dec string_dec argv missing then (None, tt)
    else (Some listing, tt).

(** The parts of a line of the listing: a character that [re.split]
    leaves in a token, a token, a token that is not empty, a run of white
    space, and a text that is at its end or begins with a separator. *)
Definition plain (c : ascii) : bool :=
  negb (Py.is_space c) && negb (c =? ":")%char && negb (c =? "-")%char.

Fixpoint token (s : string) : bool :=
  match s with
  | EmptyString => true
  | String c s' => plain c && token s'
  end.

Definition word (s : string) : bool := token s && negb (s =? "")%string.

Fixpoint all_space (s : string) : bool :=
  match s with
  | EmptyString => true
  | String c s' => Py.is_space c && all_space s'
  end.

Definition blank (s : string) : bool :=
  all_space s && negb (s =? "")%string.

Definition at_separator (s : string) : bool :=
  match s with
  | EmptyString => true
  | String c s' =>
      Py.is_space c || (c =? ":")%char ||
      ((c =? "-")%char &&
       match s' with
       | String ">" _ => true
       | _ => false
       end)
  end.

Fixpoint all_digits (s : string) : bool :=
  match s with
  | EmptyString => true
  | String c s' => Py.is_digit c && all_digits s'
  end.

(* ================================================================= *)
(** ** Signals that are not handled between two steps *)



Section Deliveries.

Variable W : Type.
Variable popen : list string -> W -> option string * W.




End Deliveries.

(* ================================================================= *)
(** ** Checks on concrete inputs *)

Example str_8080 : Py.str 8080 = "8080".
Proof. reflexivity. Qed.

Example int_examples :
  Py.int "8080" = Some 8080 /\ Py.int "192.168.1.5" = None /\
  Py.int "1_000" = Some 1000 /\ Py.int "1__0" = None /\
  Py.int "-7" = Some (-7) /\ Py.int "" = None.
Proof. repeat split; reflexivity. Qed.

Example re_split_upnpc_line :
  Regex.re_split " 0 TCP  8080->192.168.1.5:80 'x' '' 0"
  = [""; "0"; "TCP"; "8080"; "192.168.1.5"; "80"; "'x'"; "''"; "0"].
Proof. reflexivity. Qed.

Example re_split_separators :
  Regex.re_split "a - b->:c " = ["a"; "-"; "b"; ""; "c"; ""].
Proof. reflexivity. Qed.

Example keep_lines_upnpc :
  keep_lines [" i protocol exPort->inAddr:inPort description";
              " 0 TCP  8080->192.168.1.5:80    'web' '' 0"] Regex.digit_arrow
  = [" 0 TCP  8080->192.168.1.5:80    'web' '' 0"].
Proof. reflexivity. Qed.

Example spec_shape_examples :
  Regex.re_match spec_shape "1 TCP 8080->192.168.1.5:80" = true /\
  Regex.re_match spec_shape "udp 53->192.168.1.5:53" = true /\
  Regex.re_match spec_shape "9->" = false.
Proof. repeat split; reflexivity. Qed.

(* ================================================================= *)
(** ** [re.match] by derivatives is matching of a prefix *)

Section Strings.

Lemma str_app_nil_r (s : string) : (s ++ "")%string = s.
Proof. induction s; simpl; congruence. Qed.

Lemma str_app_assoc (s1 s2 s3 : string) :
  ((s1 ++ s2) ++ s3 = s1 ++ (s2 ++ s3))%string.
Proof. induction s1; simpl; congruence. Qed.

Lemma str_app_eq_nil (s1 s2 : string) :
  (s1 ++ s2)%string = EmptyString -> s1 = EmptyString /\ s2 = EmptyString.
Proof. destruct s1; simpl; intros H; [auto | discriminate]. Qed.

Lemma newline_free_app (s1 s2 : string) :
  newline_free (s1 ++ s2) = newline_free s1 && newline_free s2.
Proof.
  induction s1 as [|c s1 IH]; simpl; [reflexivity|].
  rewrite IH, andb_assoc. reflexivity.
Qed.

End Strings.

Section Derivatives.

Import Regex.

Lemma nullable_matches (r : regex) :
  nullable r = true <-> matches r EmptyString.
Proof.
  split.
  - induction r; simpl; intros H; try discriminate.
    + constructor.
    + apply andb_true_iff in H as [H1 H2].
      change EmptyString with ("" ++ "")%string. constructor; auto.
    + apply orb_true_iff in H as [H|H]; [apply MAltL | apply MAltR]; auto.
    + constructor.
  - intros H. remember EmptyString as s eqn:Es.
    induction H; simpl; try reflexivity; try discriminate.
    + apply str_app_eq_nil in Es as [-> ->].
      rewrite IHmatches1, IHmatches2; auto.
    + rewrite IHmatches; auto.
    + rewrite IHmatches, orb_true_r; auto.
Qed.

Lemma star_cons_inv (r : regex) (c : ascii) (s : string) :
  matches (Star r) (String c s) ->
  exists s1 s2, s = (s1 ++ s2)%string /\
                matches r (String c s1) /\ matches (Star r) s2.
Proof.
  intros H. remember (Star r) as r' eqn:Er. remember (String c s) as t eqn:Et.
  revert c s Et.
  induction H; intros c0 s0 Et; try discriminate.
  inversion Er; subst r0.
  destruct s1 as [|c1 s1]; simpl in Et.
  - apply IHmatches2; auto.
  - inversion Et; subst. exists s1, s2. auto.
Qed.

Lemma deriv_matches (r : regex) :
  forall c s, matches (deriv c r) s <-> matches r (String c s).
Proof.
  induction r as [| |p|r1 IH1 r2 IH2|r1 IH1 r2 IH2|r IH]; intros c s; simpl.
  - split; intros H; inversion H.
  - split; intros H; inversion H.
  - destruct (p c) eqn:Ep; split; intros H; inversion H; subst.
    + constructor; assumption.
    + constructor.
    + congruence.
  - assert (Hcat : matches (Cat (deriv c r1) r2) s ->
                   matches (Cat r1 r2) (String c s)).
    { intros H. inversion H; subst.
      change (String c (s1 ++ s2)) with (String c s1 ++ s2)%string.
      constructor; [apply IH1|]; assumption. }
    assert (Hinv : matches (Cat r1 r2) (String c s) ->
                   matches (Cat (deriv c r1) r2) s \/
                   (matches r1 EmptyString /\ matches (deriv c r2) s)).
    { intros H. inversion H; subst.
      destruct s1 as [|c1 s1]; simpl in *.
      - right. split; [assumption | apply IH2; congruence].
      - match goal with E : String _ _ = String _ _ |- _ =>
          inversion E; subst end.
        left. constructor; [apply IH1|]; assumption. }
    destruct (nullable r1) eqn:En; split; intros H.
    + inversion H; subst; [auto|].
      change (String c s) with ("" ++ String c s)%string.
      constructor; [apply nullable_matches | apply IH2]; assumption.
    + destruct (Hinv H) as [H'|[_ H']]; [apply MAltL | apply MAltR]; auto.
    + auto.
    + destruct (Hinv H) as [H'|[H' _]]; [assumption|].
      apply nullable_matches in H'. congruence.
  - split; intros H; inversion H; subst.
    + apply MAltL, IH1; assumption.
    + apply MAltR, IH2; assumption.
    + apply MAltL, IH1; assumption.
    + apply MAltR, IH2; assumption.
  - split; intros H.
    + inversion H; subst.
      change (String c (s1 ++ s2)) with (String c s1 ++ s2)%string.
      constructor; [apply IH|]; assumption.
    + apply star_cons_inv in H as (s1 & s2 & -> & H1 & H2).
      constructor; [apply IH|]; assumption.
Qed.

Lemma re_match_prefix (s : string) :
  forall r, re_match r s = true <->
            exists p q, s = (p ++ q)%string /\ matches r p.
Proof.
  induction s as [|c s IH]; intros r; simpl.
  - rewrite orb_false_r, nullable_matches. split.
    + intros H. exists EmptyString, EmptyString. auto.
    + intros (p & q & E & H). symmetry in E.
      apply str_app_eq_nil in E as [-> _]. assumption.
  - rewrite orb_true_iff, nullable_matches, IH. split.
    + intros [H|(p & q & -> & H)].
      * exists EmptyString, (String c s). auto.
      * exists (String c p), q. split; [reflexivity|].
        apply deriv_matches; assumption.
    + intros (p & q & E & H). destruct p as [|c' p]; [auto|].
      simpl in E. inversion E; subst. right.
      exists p, q. split; [reflexivity|]. apply deriv_matches; assumption.
Qed.

Lemma star_dot_matches (u : string) :
  matches (Star dot) u <-> newline_free u = true.
Proof.
  split.
  - intros H. remember (Star dot) as r eqn:Er.
    induction H; try discriminate; [reflexivity|].
    inversion Er; subst r. rewrite newline_free_app.
    rewrite IHmatches2 by reflexivity. inversion H; subst.
    simpl. match goal with E : _ = true |- _ => rewrite E end. reflexivity.
  - induction u as [|c u IH]; simpl; intros H.
    + constructor.
    + apply andb_true_iff in H as [Hc Hu].
      change (String c u) with (String c "" ++ u)%string.
      constructor; [constructor; assumption | auto].
Qed.

Lemma digit_arrow_matches (p : string) :
  matches digit_arrow p <->
  exists u d, p = (u ++ String d "->")%string /\
              newline_free u = true /\ Py.is_digit d = true.
Proof.
  unfold digit_arrow, digit, chr. split.
  - intros H. inversion H as [| |r1 r2 u s2 Hu H2| | | |]; subst.
    inversion H2 as [| |r1' r2' sd s3 Hd H3| | | |]; subst.
    inversion H3 as [| |r1'' r2'' sa sb Ha Hb| | | |]; subst.
    inversion Hd; subst. inversion Ha; subst. inversion Hb; subst.
    repeat match goal with
           | E : Ascii.eqb _ _ = true |- _ =>
               apply Ascii.eqb_eq in E; subst
           end.
    exists u, c. split; [reflexivity|]. split; [|assumption].
    apply star_dot_matches; assumption.
  - intros (u & d & -> & Hu & Hd).
    constructor; [apply star_dot_matches; assumption|].
    change (String d "->") with (String d "" ++ (String "-" "" ++ String ">" ""))%string.
    repeat constructor; auto.
Qed.

(** On a line without line feed, the pattern of [get_existing_rules]
    keeps exactly the lines with a digit directly followed by [->]. *)
Lemma digit_arrow_keeps (line : string) :
  newline_free line = true ->
  (re_match digit_arrow line = true <-> has_digit_arrow line).
Proof.
  intros Hnl. rewrite re_match_prefix. split.
  - intros (p & q & -> & H).
    apply digit_arrow_matches in H as (u & d & -> & _ & Hd).
    exists u, d, q. split; [|assumption].
    rewrite str_app_assoc. reflexivity.
  - intros (u & d & v & -> & Hd).
    exists (u ++ String d "->")%string, v. split.
    + rewrite str_app_assoc. reflexivity.
    + apply digit_arrow_matches. exists u, d. repeat split; auto.
      rewrite newline_free_app in Hnl.
      apply andb_true_iff in Hnl as [Hu _]. assumption.
Qed.

Lemma split_lines_newline_free (output : string) :
  Forall (fun line => newline_free line = true) (Py.split_lines output).
Proof.
  induction output as [|c s IH]; simpl.
  - repeat constructor.
  - destruct (Py.is_newline c) eqn:Ec.
    + constructor; [reflexivity | assumption].
    + destruct (Py.split_lines s) as [|t ts]; simpl.
      * repeat constructor. simpl. rewrite Ec. reflexivity.
      * inversion IH; subst. constructor; [|assumption].
        simpl. rewrite Ec. simpl. assumption.
Qed.

End Derivatives.

(* ================================================================= *)
(** ** C3: the two example lines *)

(** C3. Parsing the list-output line ["1 TCP 8080->192.168.1.5:80"] gives
    the rule with port 80, protocol ["tcp"] and external port 8080; parsing
    ["2 UDP 53->192.168.1.5:53"] gives the rule with port 53 and protocol
    ["udp"] and no external-port field; the protocol is in lower case. *)
Theorem C3_parse_example_lines :
  parse_listing "1 TCP 8080->192.168.1.5:80"
  = Py.Return [{| port := 80; protocol := "tcp"; external_port := Some 8080 |}]
  /\
  parse_listing "2 UDP 53->192.168.1.5:53"
  = Py.Return [{| port := 53; protocol := "udp"; external_port := None |}].
Proof. split; vm_compute; reflexivity. Qed.

(* ================================================================= *)
(** ** Rules: equality, membership, normal form *)

Lemma rule_eqb_eq (r1 r2 : rule) : rule_eqb r1 r2 = true <-> r1 = r2.
Proof.
  destruct r1 as [p1 q1 e1], r2 as [p2 q2 e2]. unfold rule_eqb; simpl.
  rewrite !andb_true_iff, Z.eqb_eq, String.eqb_eq. split.
  - intros [[-> ->] H]. destruct e1, e2; try discriminate; [|reflexivity].
    apply Z.eqb_eq in H. congruence.
  - intros E; inversion E; subst. repeat split.
    destruct e2; [apply Z.eqb_refl | reflexivity].
Qed.

Lemma rule_in_In (r : rule) (rules : list rule) :
  rule_in r rules = true <-> In r rules.
Proof.
  unfold rule_in. rewrite existsb_exists. split.
  - intros (x & Hx & E). apply rule_eqb_eq in E. congruence.
  - intros H. exists r. split; [assumption | apply rule_eqb_eq; reflexivity].
Qed.

Lemma rule_in_false (r : rule) (rules : list rule) :
  rule_in r rules = false <-> ~ In r rules.
Proof.
  rewrite <- rule_in_In. destruct (rule_in r rules); split; congruence.
Qed.

(** Between rules in normal form, equality after defaulting is equality of
    the records. *)
Lemma normalized_same_rule (r1 r2 : rule) :
  normalized r1 -> normalized r2 -> (same_rule r1 r2 <-> r1 = r2).
Proof.
  destruct r1 as [p1 q1 e1], r2 as [p2 q2 e2].
  unfold normalized, same_rule, effective_external_port; simpl.
  intros N1 N2. split.
  - intros (-> & -> & E). destruct e1, e2; subst; try congruence.
  - intros E; inversion E; auto.
Qed.

Lemma rule_of_item_normalized (item : Config.key * Z) :
  normalized (Config.rule_of_item item).
Proof.
  destruct item as [[p q] e]. unfold normalized; simpl.
  destruct (Z.eqb_spec p e); [trivial | congruence].
Qed.

Lemma rule_of_item_fields (p : Z) (q : string) (e : Z) :
  let r := Config.rule_of_item ((p, q), e) in
  port r = p /\ protocol r = q /\ effective_external_port r = e.
Proof.
  unfold effective_external_port; simpl.
  destruct (Z.eqb_spec p e); simpl; auto.
Qed.

Lemma iter_normalized (d : Config.dict) :
  Forall normalized (Config.iter d).
Proof.
  unfold Config.iter. apply Forall_forall. intros r Hr.
  apply in_map_iff in Hr as (item & <- & _). apply rule_of_item_normalized.
Qed.

Lemma parse_rule_str_normalized (rule_str : string) (r : rule) :
  parse_rule_str rule_str = Py.Return r -> normalized r.
Proof.
  unfold parse_rule_str.
  destruct (Py.index (tokens rule_str) 4); [|discriminate].
  destruct (Py.int_of a) as [p|]; [|discriminate].
  destruct (Py.index (tokens rule_str) 1); [|discriminate].
  destruct (Py.index (tokens rule_str) 2); [|discriminate].
  destruct (Py.int_of a1) as [e|]; [|discriminate].
  intros E; inversion E; subst. unfold normalized; simpl.
  destruct (Z.eqb_spec e p); [trivial | assumption].
Qed.

Lemma parse_rules_str_each (rules_str : list string) :
  forall rules,
    parse_rules_str rules_str = Py.Return rules ->
    Forall2 (fun line r => parse_rule_str line = Py.Return r) rules_str rules.
Proof.
  induction rules_str as [|l ls IH]; simpl; intros rules H.
  - inversion H; constructor.
  - destruct (parse_rule_str l) as [r|] eqn:El; [|discriminate].
    destruct (parse_rules_str ls) as [rs|]; [|discriminate].
    inversion H; subst. constructor; auto.
Qed.

Lemma parse_listing_normalized (output : string) (rules : list rule) :
  parse_listing output = Py.Return rules -> Forall normalized rules.
Proof.
  unfold parse_listing. intros H. apply parse_rules_str_each in H.
  induction H; constructor; eauto using parse_rule_str_normalized.
Qed.

(* ================================================================= *)
(** ** One pass of the reconciler *)

Lemma tool_calls_app (ev1 ev2 : list event) :
  tool_calls (ev1 ++ ev2) = tool_calls ev1 ++ tool_calls ev2.
Proof.
  induction ev1 as [|[argv|line|n] ev1 IH]; simpl; congruence.
Qed.

Section Pass.

Variable W : Type.
Variable popen : list string -> W -> option string * W.

Lemma open_ports_listed (rules : list rule) (w w1 : W) (output : string)
    (existing : list rule) :
  popen list_command w = (Some output, w1) ->
  parse_listing output = Py.Return existing ->
  open_ports popen rules w =
  let '(r, w2, ev) := for_each rules (enforce popen existing) w1 in
  (r, w2, Exec list_command :: ev).
Proof.
  intros Hp Hl. unfold open_ports, get_existing_rules, bind, call, lift.
  rewrite Hp, Hl. simpl.
  destruct (for_each rules (enforce popen existing) w1) as [[r w2] ev].
  reflexivity.
Qed.

Lemma open_ports_fault (rules : list rule) (w w1 : W) (e : Py.exn)
    (ev : list event) :
  get_existing_rules popen w = (Py.Raise e, w1, ev) ->
  open_ports popen rules w = (Py.Raise e, w1, ev).
Proof. intros H. unfold open_ports, bind. rewrite H. reflexivity. Qed.

Lemma for_each_skips (existing : list rule) (w : W) (rules : list rule) :
  (forall r, In r rules -> In r existing) ->
  for_each rules (enforce popen existing) w
  = (Py.Return tt, w, map skipped rules).
Proof.
  induction rules as [|r rs IH]; simpl; intros H; [reflexivity|].
  unfold bind, enforce at 1.
  assert (Hin : rule_in r existing = true) by (apply rule_in_In; auto).
  rewrite Hin. unfold print. rewrite IH by auto. reflexivity.
Qed.

Lemma for_each_enforces (existing : list rule) (rules : list rule) :
  (forall r, In r rules -> ~ In r existing) ->
  (forall r w, In r rules ->
     exists out w', popen (redirect_command r) w = (Some out, w')) ->
  forall w, exists w',
    for_each rules (enforce popen existing) w
    = (Py.Return tt, w', flat_map enforced rules).
Proof.
  induction rules as [|r rs IH]; simpl; intros Hno Hfound w.
  - exists w. reflexivity.
  - assert (Hin : rule_in r existing = false)
      by (apply rule_in_false; auto).
    destruct (Hfound r w (or_introl eq_refl)) as (o & w1 & Hp).
    destruct (IH (fun r H => Hno r (or_intror H))
                 (fun r w H => Hfound r w (or_intror H)) w1) as (w' & Hrs).
    exists w'. unfold bind, enforce at 1. rewrite Hin.
    unfold bind, print, call, ret. rewrite Hp. simpl. rewrite Hrs.
    reflexivity.
Qed.

(** Whatever the tool answers, the invocations of the loop are redirect
    commands of rules of the argument, in its order. *)
Lemma for_each_calls (existing : list rule) (rules : list rule) :
  forall w, exists applied,
    tool_calls (snd (for_each rules (enforce popen existing) w))
    = map redirect_command applied /\
    incl applied rules /\
    Forall (fun r => ~ In r existing) applied.
Proof.
  induction rules as [|r rs IH]; simpl; intros w.
  - exists []. repeat split; [apply incl_nil_l | constructor].
  - unfold bind, enforce at 1.
    destruct (rule_in r existing) eqn:Hin.
    + unfold print. destruct (IH w) as (applied & Hc & Hi & Hn).
      destruct (for_each rs (enforce popen existing) w) as [[x w2] ev2].
      simpl in *. exists applied. repeat split; auto using incl_tl.
    + apply rule_in_false in Hin.
      unfold bind, print, call, ret.
      destruct (popen (redirect_command r) w) as [[o|] w1]; simpl.
      * destruct (IH w1) as (applied & Hc & Hi & Hn).
        destruct (for_each rs (enforce popen existing) w1) as [[x w2] ev2].
        simpl in *. exists (r :: applied). simpl. rewrite Hc.
        repeat split; auto.
        apply incl_cons; [left; reflexivity | apply incl_tl; assumption].
      * exists [r]. simpl. repeat split; auto.
        apply incl_cons; [left; reflexivity | apply incl_nil_l].
Qed.

End Pass.

Lemma tool_calls_skipped (rules : list rule) :
  tool_calls (map skipped rules) = [].
Proof. induction rules; simpl; auto. Qed.

Lemma tool_calls_enforced (rules : list rule) :
  tool_calls (flat_map enforced rules) = map redirect_command rules.
Proof. induction rules; simpl; congruence. Qed.

Lemma redirect_command_item (item : Config.key * Z) :
  redirect_command (Config.rule_of_item item) = expected_redirect item.
Proof.
  destruct item as [[p q] e]. unfold redirect_command; simpl.
  destruct (p =? e); reflexivity.
Qed.

(* ================================================================= *)
(** ** C1, C2, C4, C5: what a pass asks of the tool *)

(** C1. Idempotence: when the listing the single list call returns already
    holds every desired rule (comparing port, protocol and external port,
    the external port defaulting to the port on both sides), the pass
    makes no add-forwarding call: its only invocation of the tool is the
    list call, every desired rule is reported as skipped and none as
    enforced.  ([open_ports] itself returns nothing: the rules applied are
    read off the events of the pass.) *)
Theorem C1_idempotence (W : Type)
    (popen : list string -> W -> option string * W)
    (d : Config.dict) (w w1 : W) (output : string) (existing : list rule) :
  popen list_command w = (Some output, w1) ->
  parse_listing output = Py.Return existing ->
  (forall p q e, In ((p, q), e) d ->
     exists a, In a existing /\
               port a = p /\ protocol a = q /\ effective_external_port a = e) ->
  exists ev,
    open_ports popen (Config.iter d) w = (Py.Return tt, w1, ev) /\
    ev = Exec list_command :: map skipped (Config.iter d) /\
    tool_calls ev = [list_command].
Proof.
  intros Hp Hl Hall.
  exists (Exec list_command :: map skipped (Config.iter d)).
  rewrite (open_ports_listed popen _ _ Hp Hl).
  rewrite for_each_skips.
  - simpl. rewrite tool_calls_skipped. auto.
  - intros r Hr. apply in_map_iff in Hr as ([[p q] e] & <- & Hin).
    destruct (Hall p q e Hin) as (a & Ha & Hport & Hproto & Hext).
    assert (E : Config.rule_of_item ((p, q), e) = a).
    { apply normalized_same_rule.
      - apply rule_of_item_normalized.
      - pose proof (parse_listing_normalized _ Hl) as N.
        rewrite Forall_forall in N. auto.
      - destruct (rule_of_item_fields p q e) as (E1 & E2 & E3).
        unfold same_rule. rewrite E1, E2, E3. auto. }
    subst a. exact Ha.
Qed.

Lemma C1_idempotence_witness :
  exists ev,
    open_ports (answering "1 TCP 8080->192.168.1.5:80
2 UDP 53->192.168.1.5:53")
      (Config.iter [((80, "tcp"), 8080); ((53, "udp"), 53)]) tt
    = (Py.Return tt, tt, ev) /\
    ev = Exec list_command
         :: map skipped (Config.iter [((80, "tcp"), 8080); ((53, "udp"), 53)]) /\
    tool_calls ev = [list_command].
Proof.
  apply (@C1_idempotence unit _ _ tt tt "1 TCP 8080->192.168.1.5:80
2 UDP 53->192.168.1.5:53"
           [{| port := 80; protocol := "tcp"; external_port := Some 8080 |};
            {| port := 53; protocol := "udp"; external_port := None |}]).
  - reflexivity.
  - vm_compute. reflexivity.
  - intros p q e [H|[H|[]]]; inversion H; subst.
    + eexists; split; [left; reflexivity | simpl; auto].
    + eexists; split; [right; left; reflexivity | simpl; auto].
Defined.

(** C2. Convergence on the first pass: when the list call returns an empty
    listing and the tool is found at each invocation, the pass makes, after
    the list call, exactly one add-forwarding call per desired rule, in
    the order of iteration of the rule set; each carries the internal
    port, the external port only when it differs from the internal port,
    and the protocol. *)
Theorem C2_first_pass (W : Type)
    (popen : list string -> W -> option string * W)
    (d : Config.dict) (w w1 : W) (output : string) :
  popen list_command w = (Some output, w1) ->
  parse_listing output = Py.Return [] ->
  (forall r w, In r (Config.iter d) ->
     exists out w', popen (redirect_command r) w = (Some out, w')) ->
  exists w2 ev,
    open_ports popen (Config.iter d) w = (Py.Return tt, w2, ev) /\
    ev = Exec list_command :: flat_map enforced (Config.iter d) /\
    tool_calls ev = list_command :: map expected_redirect d /\
    List.length (tool_calls ev) = S (List.length d).
Proof.
  intros Hp Hl Hfound.
  destruct (@for_each_enforces W popen [] (Config.iter d)
              (fun r _ H => H) Hfound w1) as (w2 & Hfor).
  exists w2, (Exec list_command :: flat_map enforced (Config.iter d)).
  rewrite (open_ports_listed popen _ _ Hp Hl), Hfor.
  assert (Hcalls : tool_calls (Exec list_command
                               :: flat_map enforced (Config.iter d))
                   = list_command :: map expected_redirect d).
  { simpl. rewrite tool_calls_enforced. unfold Config.iter.
    rewrite map_map. f_equal. apply map_ext. apply redirect_command_item. }
  repeat split; [assumption|].
  rewrite Hcalls. simpl. rewrite length_map. reflexivity.
Qed.

Lemma C2_first_pass_witness :
  exists w2 ev,
    open_ports (answering "List of UPNP devices found on the network :")
      (Config.iter [((80, "tcp"), 8080); ((53, "udp"), 53)]) tt
    = (Py.Return tt, w2, ev) /\
    ev = Exec list_command
         :: flat_map enforced
              (Config.iter [((80, "tcp"), 8080); ((53, "udp"), 53)]) /\
    tool_calls ev
    = list_command
      :: map expected_redirect [((80, "tcp"), 8080); ((53, "udp"), 53)] /\
    List.length (tool_calls ev) = 3%nat.
Proof.
  apply (@C2_first_pass unit
           (answering "List of UPNP devices found on the network :")
           [((80, "tcp"), 8080); ((53, "udp"), 53)] tt tt
           "List of UPNP devices found on the network :").
  - reflexivity.
  - vm_compute. reflexivity.
  - intros r w _. exists "List of UPNP devices found on the network :", tt.
    reflexivity.
Defined.

(** C4. One-directional diff: whatever the desired rules, the state of the
    tool and its answers, the invocations of a pass are the list command,
    once and first, followed by redirect commands of desired rules that
    are not in the listing; every invocation has the list flag or the
    redirect flag, so none is a removal. *)
Theorem C4_one_directional (W : Type)
    (popen : list string -> W -> option string * W)
    (rules : list rule) (w : W) :
  exists applied,
    tool_calls (snd (open_ports popen rules w))
    = list_command :: map redirect_command applied /\
    incl applied rules /\
    Forall (fun argv => nth_error argv 1 = Some "-l" \/
                        nth_error argv 1 = Some "-r")
           (tool_calls (snd (open_ports popen rules w))).
Proof.
  assert (Hflags : forall applied,
             Forall (fun argv => nth_error argv 1 = Some "-l" \/
                                 nth_error argv 1 = Some "-r")
                    (list_command :: map redirect_command applied)).
  { intros applied. constructor; [left; reflexivity|].
    apply Forall_forall. intros argv H.
    apply in_map_iff in H as (r & <- & _). right. reflexivity. }
  unfold open_ports, get_existing_rules, bind, call, lift.
  destruct (popen list_command w) as [[output|] w1]; simpl.
  - destruct (parse_listing output) as [existing|e]; simpl.
    + destruct (for_each_calls popen existing rules w1)
        as (applied & Hc & Hi & _).
      destruct (for_each rules (enforce popen existing) w1) as [[r w2] ev].
      simpl in *. exists applied. rewrite Hc. auto.
    + exists []. split; [reflexivity|]. split; [apply incl_nil_l|].
      apply (Hflags []).
  - exists []. split; [reflexivity|]. split; [apply incl_nil_l|].
    apply (Hflags []).
Qed.

(** C5. The scenario of the differing external port: the desired rule set
    holds port 443, tcp, external port 8443, and the listing reports
    port 443, tcp with external port 443.  The desired rule is not found
    in the listing; the pass makes the list call and then one redirect
    call, for 443 8443 tcp, and nothing else: no removal of the entry that
    is there. *)
Theorem C5_external_port_mismatch (W : Type)
    (popen : list string -> W -> option string * W)
    (w w1 : W) (output : string) :
  let desired :=
    Config.rules
      (snd (Config.init
              (Config.Document
                 [{| Config.y_port := Some 443;
                     Config.y_external_port := Some 8443;
                     Config.y_protocol := Some "tcp" |}]))) in
  let active := [{| port := 443; protocol := "tcp"; external_port := None |}] in
  popen list_command w = (Some output, w1) ->
  parse_listing output = Py.Return active ->
  desired = [{| port := 443; protocol := "tcp"; external_port := Some 8443 |}] /\
  Forall (fun r => rule_in r active = false) desired /\
  exists r w2,
    open_ports popen desired w
    = (r, w2, [Exec list_command;
               Print "enforcing rule 443->8443 tcp";
               Exec ["upnpc"; "-r"; "443"; "8443"; "tcp"]]).
Proof.
  intros desired active Hp Hl.
  split; [reflexivity|]. split; [repeat constructor|].
  rewrite (open_ports_listed popen _ _ Hp Hl).
  change desired
    with [{| port := 443; protocol := "tcp"; external_port := Some 8443 |}].
  unfold for_each, bind, enforce. simpl. unfold bind, print, call, ret.
  change (redirect_command _) with ["upnpc"; "-r"; "443"; "8443"; "tcp"].
  destruct (popen ["upnpc"; "-r"; "443"; "8443"; "tcp"] w1) as [[o|] w2];
    simpl; eauto.
Qed.

Lemma C5_external_port_mismatch_witness :
  exists r w2,
    open_ports (answering " 0 TCP   443->192.168.1.5:443  'https' '' 0")
      [{| port := 443; protocol := "tcp"; external_port := Some 8443 |}] tt
    = (r, w2, [Exec list_command;
               Print "enforcing rule 443->8443 tcp";
               Exec ["upnpc"; "-r"; "443"; "8443"; "tcp"]]).
Proof.
  apply (@C5_external_port_mismatch unit
           (answering " 0 TCP   443->192.168.1.5:443  'https' '' 0") tt tt
           " 0 TCP   443->192.168.1.5:443  'https' '' 0").
  - reflexivity.
  - vm_compute. reflexivity.
Defined.

(* ================================================================= *)
(** ** Faults of the list call *)

Lemma parse_rule_str_fault (rule_str : string) (e : Py.exn) :
  parse_rule_str rule_str = Py.Raise e -> parse_fault e.
Proof.
  unfold parse_rule_str, Py.index, Py.int_of, parse_fault.
  destruct (nth_error (tokens rule_str) 4) as [t4|];
    [|intros H; inversion H; auto].
  destruct (Py.int t4); [|intros H; inversion H; auto].
  destruct (nth_error (tokens rule_str) 1); [|intros H; inversion H; auto].
  destruct (nth_error (tokens rule_str) 2) as [t2|];
    [|intros H; inversion H; auto].
  destruct (Py.int t2); intros H; inversion H; auto.
Qed.

Lemma parse_rule_str_value_error (rule_str : string) (e : Py.exn) :
  (5 <= List.length (tokens rule_str))%nat ->
  parse_rule_str rule_str = Py.Raise e -> e = Py.ValueError.
Proof.
  intros Hlen. unfold parse_rule_str, Py.index, Py.int_of.
  destruct (nth_error (tokens rule_str) 4) as [t4|] eqn:E4;
    [|apply nth_error_None in E4; lia].
  destruct (Py.int t4); [|intros H; inversion H; auto].
  destruct (nth_error (tokens rule_str) 1) eqn:E1;
    [|apply nth_error_None in E1; lia].
  destruct (nth_error (tokens rule_str) 2) as [t2|] eqn:E2;
    [|apply nth_error_None in E2; lia].
  destruct (Py.int t2); intros H; inversion H; auto.
Qed.

(** A token that is no integer where a port is read makes the line
    raise. *)
Lemma parse_rule_str_bad_port (rule_str : string) :
  (exists t, nth_error (tokens rule_str) 2 = Some t /\ Py.int t = None) \/
  (exists t, nth_error (tokens rule_str) 4 = Some t /\ Py.int t = None) ->
  exists e, parse_rule_str rule_str = Py.Raise e.
Proof.
  unfold parse_rule_str, Py.index, Py.int_of.
  intros [(t & Ht & Hi)|(t & Ht & Hi)].
  - rewrite Ht, Hi.
    destruct (nth_error (tokens rule_str) 4) as [t4|]; [|eauto].
    destruct (Py.int t4); [|eauto].
    destruct (nth_error (tokens rule_str) 1); eauto.
  - rewrite Ht, Hi. eauto.
Qed.

(** The loop of [get_existing_rules] raises as soon as one line does, and
    with a fault of one of its lines. *)
Lemma parse_rules_str_raises (rules_str : list string) (line : string)
    (e : Py.exn) :
  In line rules_str -> parse_rule_str line = Py.Raise e ->
  exists e', parse_rules_str rules_str = Py.Raise e'.
Proof.
  induction rules_str as [|l ls IH]; simpl; intros Hin Hl; [contradiction|].
  destruct Hin as [->|Hin].
  - rewrite Hl. eauto.
  - destruct (parse_rule_str l); [|eauto].
    destruct (IH Hin Hl) as (e' & ->). eauto.
Qed.

Lemma parse_rules_str_fault (rules_str : list string) (e : Py.exn) :
  parse_rules_str rules_str = Py.Raise e ->
  exists line, In line rules_str /\ parse_rule_str line = Py.Raise e.
Proof.
  induction rules_str as [|l ls IH]; simpl; [discriminate|].
  destruct (parse_rule_str l) as [r|e0] eqn:El.
  - destruct (parse_rules_str ls) as [rs|e1]; [discriminate|].
    intros H; inversion H; subst.
    destruct (IH eq_refl) as (line & Hin & Hline). eauto.
  - intros H; inversion H; subst. eauto.
Qed.

Section Faults.

Variable W : Type.
Variable popen : list string -> W -> option string * W.

Lemma get_existing_rules_answered (w w1 : W) (output : string) :
  popen list_command w = (Some output, w1) ->
  get_existing_rules popen w = (parse_listing output, w1, [Exec list_command]).
Proof.
  intros Hp. unfold get_existing_rules, bind, call, lift. rewrite Hp.
  destruct (parse_listing output); reflexivity.
Qed.

Lemma get_existing_rules_absent (w w1 : W) :
  popen list_command w = (None, w1) ->
  get_existing_rules popen w
  = (Py.Raise tool_unavailable, w1, [Exec list_command]).
Proof.
  intros Hp. unfold get_existing_rules, bind, call. rewrite Hp. reflexivity.
Qed.

(** A fault of the list call at the top of the loop body ends [run]: the
    exception is not KeyboardInterrupt, nothing catches it, and no label
    moves the process afterwards. *)
Lemma tick_list_fault (s : machine W) (e : Py.exn) (w1 : W)
    (ev : list event) :
  ctl s = AtPass ->
  get_existing_rules popen (world s) = (Py.Raise e, w1, ev) ->
  e <> Py.KeyboardInterrupt ->
  exists s',
    step popen Tick s = Some s' /\
    ctl s' = Crashed e /\
    out s' = out s ++ ev /\
    forall l, step popen l s' = None.
Proof.
  intros Hc Hg Hk. unfold step, tick. rewrite Hc, Hg. simpl.
  eexists. split; [reflexivity|]. simpl.
  assert (Hx : except e = Crashed e) by (destruct e; simpl; congruence).
  rewrite Hx. split; [reflexivity|]. split; [reflexivity|].
  intros l. reflexivity.
Qed.

End Faults.

(** C7. A kept line whose token in the place of the external port or of
    the internal port is no integer makes the list call fail: it raises a
    fault of parsing (ValueError, or IndexError when an earlier kept line
    has too few tokens; ValueError when every kept line has its five
    tokens), no list of rules is returned and the line is not skipped.
    The fault goes through [open_ports], which makes no further call, and
    through the loop of [run], which ends there. *)
Theorem C7_parse_failure_fatal (W : Type)
    (popen : list string -> W -> option string * W)
    (s : machine W) (w1 : W) (output line : string) (rules : list rule) :
  ctl s = AtPass ->
  popen list_command (world s) = (Some output, w1) ->
  In line (keep_lines (Py.split_lines output) Regex.digit_arrow) ->
  (exists t, nth_error (tokens line) 2 = Some t /\ Py.int t = None) \/
  (exists t, nth_error (tokens line) 4 = Some t /\ Py.int t = None) ->
  exists e,
    parse_fault e /\
    (Forall (fun l => (5 <= List.length (tokens l))%nat)
       (keep_lines (Py.split_lines output) Regex.digit_arrow) ->
     e = Py.ValueError) /\
    get_existing_rules popen (world s)
    = (Py.Raise e, w1, [Exec list_command]) /\
    open_ports popen rules (world s) = (Py.Raise e, w1, [Exec list_command]) /\
    exists s',
      step popen Tick s = Some s' /\
      ctl s' = Crashed e /\
      out s' = out s ++ [Exec list_command] /\
      forall l, step popen l s' = None.
Proof.
  intros Hc Hp Hin Hbad.
  destruct (parse_rule_str_bad_port _ Hbad) as (e0 & He0).
  destruct (parse_rules_str_raises _ _ Hin He0) as (e & He).
  destruct (parse_rules_str_fault _ He) as (l & Hl & Hle).
  assert (Hpf : parse_fault e) by (eapply parse_rule_str_fault; eassumption).
  assert (Hg : get_existing_rules popen (world s)
               = (Py.Raise e, w1, [Exec list_command])).
  { rewrite (get_existing_rules_answered popen _ Hp).
    unfold parse_listing. rewrite He. reflexivity. }
  exists e. split; [assumption|]. split.
  { intros Hall. rewrite Forall_forall in Hall.
    eapply parse_rule_str_value_error; [apply Hall|]; eassumption. }
  split; [assumption|]. split; [apply open_ports_fault; assumption|].
  apply (tick_list_fault popen s Hc Hg).
  destruct Hpf; subst; discriminate.
Qed.

Lemma C7_parse_failure_fatal_witness :
  exists e,
    parse_fault e /\
    get_existing_rules (answering " 0 TCP  8o80->192.168.1.5:80")
      tt = (Py.Raise e, tt, [Exec list_command]).
Proof.
  destruct (@C7_parse_failure_fatal unit
              (answering " 0 TCP  8o80->192.168.1.5:80")
              {| mem := {| Config.heap := [[]]; Config._rules := O |};
                 world := tt; out := []; ctl := AtPass |}
              tt " 0 TCP  8o80->192.168.1.5:80"
              " 0 TCP  8o80->192.168.1.5:80" [])
    as (e & Hpf & _ & Hg & _).
  - reflexivity.
  - reflexivity.
  - vm_compute. left. reflexivity.
  - left. exists "8o80". split; vm_compute; reflexivity.
  - exists e. split; assumption.
Defined.

(** C8. When the executable of the tool cannot be located, the invocation
    fails with one fault, the RuntimeError of [call], which is no fault of
    parsing.  When this happens in the list call of a pass, the pass makes
    no add-forwarding call (its only invocation is the list call that
    failed), and the fault leaves the loop of [run] uncaught: the process
    ends. *)
Theorem C8_tool_unavailable (W : Type)
    (popen : list string -> W -> option string * W)
    (args : list string) (w wa : W)
    (s : machine W) (w1 : W) (rules : list rule) :
  popen args w = (None, wa) ->
  ctl s = AtPass ->
  popen list_command (world s) = (None, w1) ->
  call popen args w = (Py.Raise tool_unavailable, wa, [Exec args]) /\
  ~ parse_fault tool_unavailable /\
  open_ports popen rules (world s)
  = (Py.Raise tool_unavailable, w1, [Exec list_command]) /\
  exists s',
    step popen Tick s = Some s' /\
    ctl s' = Crashed tool_unavailable /\
    out s' = out s ++ [Exec list_command] /\
    forall l, step popen l s' = None.
Proof.
  intros Ha Hc Hp. split; [|split; [|split]].
  - unfold call. rewrite Ha. reflexivity.
  - intros [H|H]; discriminate.
  - apply open_ports_fault, get_existing_rules_absent; assumption.
  - apply (tick_list_fault popen s Hc (get_existing_rules_absent popen _ Hp)).
    discriminate.
Qed.

Lemma C8_tool_unavailable_witness :
  open_ports absent
    [{| port := 80; protocol := "tcp"; external_port := None |}] tt
  = (Py.Raise tool_unavailable, tt, [Exec list_command]).
Proof.
  apply (@C8_tool_unavailable unit absent list_command tt tt
           {| mem := {| Config.heap := [[]]; Config._rules := O |};
              world := tt; out := []; ctl := AtPass |} tt
           [{| port := 80; protocol := "tcp"; external_port := None |}]);
    reflexivity.
Defined.

(* ================================================================= *)
(** ** C10, C6: what the two boundaries hand to the reconciler *)

Lemma normalized_field_when_differs (r : rule) :
  normalized r <-> field_when_differs r.
Proof.
  destruct r as [p q [e|]];
    unfold normalized, field_when_differs, effective_external_port; simpl.
  - split; [intros H; split; [auto | discriminate] | intros [H _]].
    apply H. discriminate.
  - split; [intros _; split; congruence | trivial].
Qed.

Lemma parse_rule_str_shows (rule_str : string) (r : rule) :
  parse_rule_str rule_str = Py.Return r -> shows rule_str r.
Proof.
  unfold parse_rule_str, Py.index, Py.int_of, shows.
  destruct (nth_error (tokens rule_str) 4) as [t4|]; [|discriminate].
  destruct (Py.int t4) as [p|] eqn:E4; [|discriminate].
  destruct (nth_error (tokens rule_str) 1) as [t1|]; [|discriminate].
  destruct (nth_error (tokens rule_str) 2) as [t2|]; [|discriminate].
  destruct (Py.int t2) as [e|] eqn:E2; [|discriminate].
  intros H; inversion H; subst r; clear H.
  exists t1, t2, t4, e. unfold effective_external_port; simpl.
  split; [reflexivity|]. split; [reflexivity|]. split; [reflexivity|].
  split; [exact E2|]. split; [exact E4|]. split; [reflexivity|].
  destruct (Z.eqb_spec e p) as [E|E]; simpl.
  - split; [congruence|]. split; congruence.
  - split; [reflexivity|]. split; [auto | discriminate].
Qed.

Lemma parse_rules_str_shows (rules_str : list string) :
  forall rules,
    parse_rules_str rules_str = Py.Return rules ->
    Forall2 shows rules_str rules.
Proof.
  induction rules_str as [|l ls IH]; simpl; intros rules H.
  - inversion H; constructor.
  - destruct (parse_rule_str l) as [r|] eqn:El; [|discriminate].
    destruct (parse_rules_str ls) as [rs|]; [|discriminate].
    inversion H; subst. constructor; auto using parse_rule_str_shows.
Qed.

(** C10. Every rule that iterating a rule set yields and every rule the
    list call produces has the external-port field exactly when its
    external port differs from its port: for a desired rule, the external
    port stored under its key; for a rule of the listing, the external
    port its line shows, the rule having the port and the protocol of
    that line.  Hence the membership test of the reconciler, equality of
    the records, holds exactly when the listing has a rule with the same
    port, protocol and external port after defaulting. *)
Theorem C10_normal_form (d : Config.dict) (output : string)
    (existing : list rule) :
  parse_listing output = Py.Return existing ->
  Forall field_when_differs (Config.iter d) /\
  Forall field_when_differs existing /\
  Forall2 (fun item r =>
             port r = fst (fst item) /\ protocol r = snd (fst item) /\
             effective_external_port r = snd item)
          d (Config.iter d) /\
  Forall2 shows
          (keep_lines (Py.split_lines output) Regex.digit_arrow) existing /\
  forall r, In r (Config.iter d) ->
    (rule_in r existing = true <-> exists a, In a existing /\ same_rule r a).
Proof.
  intros Hl.
  pose proof (iter_normalized d) as Nd.
  pose proof (parse_listing_normalized _ Hl) as Ne.
  split; [|split; [|split; [|split]]].
  - eapply Forall_impl; [|exact Nd].
    intros r. apply normalized_field_when_differs.
  - eapply Forall_impl; [|exact Ne].
    intros r. apply normalized_field_when_differs.
  - unfold Config.iter. clear. induction d as [|[[p q] e] d IH]; simpl.
    + constructor.
    + constructor; [apply (rule_of_item_fields p q e) | assumption].
  - apply parse_rules_str_shows. exact Hl.
  - intros r Hr. rewrite rule_in_In.
    rewrite Forall_forall in Nd, Ne. split.
    + intros H. exists r. split; [assumption|].
      apply normalized_same_rule; auto.
    + intros (a & Ha & Hs).
      apply normalized_same_rule in Hs; auto. subst a. assumption.
Qed.

Lemma C10_normal_form_witness :
  Forall field_when_differs
    (Config.iter [((80, "tcp"), 8080); ((53, "udp"), 53)]) /\
  Forall field_when_differs
    [{| port := 80; protocol := "tcp"; external_port := Some 8080 |}] /\
  Forall2 shows ["1 TCP 8080->192.168.1.5:80"]
    [{| port := 80; protocol := "tcp"; external_port := Some 8080 |}].
Proof.
  destruct (@C10_normal_form [((80, "tcp"), 8080); ((53, "udp"), 53)]
              "1 TCP 8080->192.168.1.5:80"
              [{| port := 80; protocol := "tcp";
                  external_port := Some 8080 |}])
    as (H1 & H2 & _ & H4 & _).
  - vm_compute. reflexivity.
  - split; [assumption|]. split; [assumption | exact H4].
Defined.

Lemma keep_lines_selects (lines : list string) :
  Forall (fun line => newline_free line = true) lines ->
  selects has_digit_arrow lines (keep_lines lines Regex.digit_arrow).
Proof.
  induction 1 as [|l ls Hl _ IH]; simpl.
  - constructor.
  - destruct (Regex.re_match Regex.digit_arrow l) eqn:E.
    + apply selects_keep; [apply digit_arrow_keeps|]; assumption.
    + apply selects_drop; [|assumption].
      intros H. apply digit_arrow_keeps in H; congruence.
Qed.

(** C6, as the code has it.  The list call takes rules only from the lines
    of the output that hold a decimal digit directly followed by [->];
    every other line is ignored: it gives no rule and no fault.  From the
    kept lines come, in order, one rule each when the call returns, and
    otherwise the fault of one of them. *)
Theorem C6_noise_tolerance (output : string) :
  exists kept,
    selects has_digit_arrow (Py.split_lines output) kept /\
    parse_listing output = parse_rules_str kept /\
    match parse_listing output with
    | Py.Return rules =>
        Forall2 (fun line r => parse_rule_str line = Py.Return r) kept rules
    | Py.Raise e =>
        parse_fault e /\
        exists line, In line kept /\ parse_rule_str line = Py.Raise e
    end.
Proof.
  exists (keep_lines (Py.split_lines output) Regex.digit_arrow).
  split; [apply keep_lines_selects, split_lines_newline_free|].
  split; [reflexivity|]. unfold parse_listing.
  destruct (parse_rules_str _) as [rules|e] eqn:E.
  - apply parse_rules_str_each; assumption.
  - destruct (parse_rules_str_fault _ E) as (line & Hin & Hl).
    split; [eapply parse_rule_str_fault; eassumption | eauto].
Qed.

(** C6, as the claim has it, fails: a line that does not have the shape
    'optional index, protocol, external port [->] anything [:] port' can
    make the list call fail, and can give a rule. *)
Lemma C6_shape_counterexample :
  Regex.re_match spec_shape "9->" = false /\
  parse_listing "9->" = Py.Raise Py.IndexError /\
  Regex.re_match spec_shape "a b 5 c 7 9->" = false /\
  parse_listing "a b 5 c 7 9->"
  = Py.Return [{| port := 7; protocol := "b"; external_port := Some 5 |}].
Proof. repeat split; vm_compute; reflexivity. Qed.

(** A line of the shape without the leading index is kept and makes the
    call fail: the tokens are read at fixed places that count the index. *)
Example no_index_line :
  Regex.re_match spec_shape "TCP 8080->192.168.1.5:80" = true /\
  parse_listing "TCP 8080->192.168.1.5:80" = Py.Raise Py.IndexError.
Proof. split; vm_compute; reflexivity. Qed.

(* ================================================================= *)
(** ** The store: loading in place against loading as a whole *)

Section Store.

Import Config.

Lemma update_length {A : Type} (a : nat) (x : A) (l : list A) :
  List.length (update a x l) = List.length l.
Proof.
  revert a. induction l as [|y l IH]; intros [|a]; simpl; auto.
Qed.

Lemma nth_update_same {A : Type} (a : nat) (x dflt : A) (l : list A) :
  (a < List.length l)%nat -> nth a (update a x l) dflt = x.
Proof.
  revert a. induction l as [|y l IH]; intros [|a]; simpl; intros H;
    try lia; auto. apply IH. lia.
Qed.

Lemma nth_update_other {A : Type} (a b : nat) (x dflt : A) (l : list A) :
  a <> b -> nth b (update a x l) dflt = nth b l dflt.
Proof.
  revert a b. induction l as [|y l IH]; intros [|a] [|b]; simpl; intros H;
    try congruence; auto.
Qed.

Lemma add_spec (p : Z) (e : option Z) (q : string) (m : mem) :
  bound m ->
  bound (add p e q m) /\
  current (add p e q m) = dict_set (p, q) (or_port e p) (current m) /\
  same_but_current m (add p e q m).
Proof.
  unfold bound, add, current, deref, same_but_current; simpl. intros Hb.
  rewrite update_length. split; [assumption|]. split.
  - apply nth_update_same; assumption.
  - repeat split. intros a Ha. apply nth_update_other. congruence.
Qed.

(** Adding the records one after the other to the dict in the store gives
    what loading them as a whole gives, and raises where it raises; the
    other dicts of the store stay as they are. *)
Lemma add_all_refines (config : list yaml_rule) :
  forall m, bound m ->
    exists m',
      same_but_current m m' /\
      match load_all config (current m) with
      | Py.Return d =>
          add_all config m = (Py.Return tt, m') /\ current m' = d
      | Py.Raise e =>
          add_all config m = (Py.Raise e, m') /\ exists k, e = Py.KeyError k
      end.
Proof.
  induction config as [|r config IH]; simpl; intros m Hb.
  - exists m. split; [|auto]. repeat split.
  - destruct (y_port r) as [p|]; simpl.
    + destruct (y_protocol r) as [q|]; simpl.
      * destruct (add_spec p (y_external_port r) q Hb)
          as (Hb' & Hcur & Hr' & Hl' & Ho').
        destruct (IH _ Hb') as (m' & (Hr & Hl & Ho) & H).
        exists m'. rewrite Hcur in H. split; [|assumption].
        repeat split; [congruence | congruence |].
        intros a Ha. rewrite Ho by congruence. apply Ho'. assumption.
      * exists m. split; [repeat split | eauto].
    + exists m. split; [repeat split | eauto].
Qed.

Lemma fresh_spec (m : mem) :
  bound (fresh m) /\
  current (fresh m) = [] /\
  _rules (fresh m) = List.length (heap m) /\
  List.length (heap (fresh m)) = S (List.length (heap m)) /\
  forall a, (a < List.length (heap m))%nat -> deref (fresh m) a = deref m a.
Proof.
  unfold bound, fresh, current, deref; simpl.
  rewrite length_app; simpl. split; [lia|]. split.
  - rewrite app_nth2, Nat.sub_diag by lia. reflexivity.
  - split; [reflexivity|]. split; [lia|].
    intros a Ha. apply app_nth1. assumption.
Qed.

(** [parse_rules] binds [_rules] to a new dict, which in the end holds
    the rule set of the file when all of it loads; the dicts that were in
    the store are not touched. *)
Lemma parse_rules_refines (f : config_file) (m : mem) :
  exists m',
    bound m' /\
    (forall a, (a < List.length (heap m))%nat -> deref m' a = deref m a) /\
    (List.length (heap m) <= _rules m')%nat /\
    match loaded f with
    | Py.Return d => parse_rules f m = (Py.Return tt, m') /\ current m' = d
    | Py.Raise e =>
        parse_rules f m = (Py.Raise e, m') /\ exists k, e = Py.KeyError k
    end.
Proof.
  destruct (fresh_spec m) as (Hb & Hcur & Hr & Hl & Ho).
  unfold parse_rules.
  assert (Hfresh : exists m',
             bound m' /\
             (forall a, (a < List.length (heap m))%nat ->
                        deref m' a = deref m a) /\
             (List.length (heap m) <= _rules m')%nat /\
             (Py.Return tt, fresh m) = (Py.Return tt, m') /\
             current m' = []).
  { exists (fresh m). repeat split; auto; lia. }
  destruct f as [|config]; simpl; [exact Hfresh|].
  destruct config as [|r config]; [exact Hfresh|].
  destruct (add_all_refines (r :: config) Hb) as (m' & (Hr' & Hl' & Ho') & H).
  exists m'. rewrite Hcur in H.
  split; [unfold bound in *; lia|].
  split; [intros a Ha; rewrite Ho' by lia; auto|].
  split; [lia | exact H].
Qed.

Lemma load_all_malformed (config : list yaml_rule) :
  forall d, Exists missing_field config ->
            exists k, load_all config d = Py.Raise (Py.KeyError k).
Proof.
  induction config as [|r config IH]; intros d H; [inversion H|].
  simpl. destruct (y_port r) as [p|] eqn:Ep; [|eauto].
  destruct (y_protocol r) as [q|] eqn:Eq; [|eauto].
  apply IH. inversion H as [? ? [Hm|Hm]|]; subst; [congruence..|assumption].
Qed.

End Store.

(* ================================================================= *)
(** ** The loop of [run] under reloads *)



Section Reloads.

Variable W : Type.
Variable popen : list string -> W -> option string * W.






End Reloads.






(* ================================================================= *)
(** ** A pass of the loop is [open_ports] *)

Lemma skipn_cons_nth {A : Type} (l : list A) :
  forall pos x rest,
    skipn pos l = x :: rest ->
    nth_error l pos = Some x /\ skipn (S pos) l = rest.
Proof.
  induction l as [|y l IH]; intros [|pos] x rest H; simpl in *;
    try discriminate.
  - inversion H; subst. split; [reflexivity|]. reflexivity.
  - apply IH in H. exact H.
Qed.

Lemma skipn_nil_nth {A : Type} (l : list A) :
  forall pos, skipn pos l = [] -> nth_error l pos = None.
Proof.
  induction l as [|y l IH]; intros [|pos] H; simpl in *;
    try reflexivity; try discriminate. auto.
Qed.

Section PassOfLoop.

Variable W : Type.
Variable popen : list string -> W -> option string * W.

Lemma exec_tick (n : nat) (s : machine W) :
  live (ctl s) = true ->
  exec popen (repeat Tick (S n)) s = exec popen (repeat Tick n) (tick popen s).
Proof. intros H. simpl. unfold step. rewrite H. reflexivity. Qed.

(** From inside the [for] loop, the ticks do what [for_each] does on the
    rules of the items that remain. *)
Lemma for_loop_ticks (existing : list rule) (a len : nat)
    (rest : list (Config.key * Z)) :
  forall pos (s : machine W) r w' ev,
    ctl s = InFor existing a len pos ->
    List.length (Config.deref (mem s) a) = len ->
    skipn pos (Config.deref (mem s) a) = rest ->
    for_each (map Config.rule_of_item rest) (enforce popen existing) (world s)
    = (r, w', ev) ->
    exists n s',
      exec popen (repeat Tick n) s = Some s' /\
      mem s' = mem s /\ world s' = w' /\
      match r with
      | Py.Return _ =>
          ctl s' = Sleeping /\
          out s' = out s ++ ev
                   ++ [Print "Sleeping for 5 minutes."; Sleep 300]
      | Py.Raise e => ctl s' = except e /\ out s' = out s ++ ev
      end.
Proof.
  induction rest as [|item rest IH]; intros pos s r w' ev Hc Hlen Hskip Hfor.
  - simpl in Hfor. inversion Hfor; subst r w' ev.
    exists 1%nat. eexists. rewrite exec_tick by (rewrite Hc; reflexivity).
    split; [reflexivity|]. unfold tick. rewrite Hc, Hlen, Nat.eqb_refl.
    simpl. rewrite (skipn_nil_nth _ _ Hskip). simpl. auto.
  - apply skipn_cons_nth in Hskip as [Hnth Hskip].
    simpl in Hfor. unfold bind in Hfor.
    destruct (enforce popen existing (Config.rule_of_item item) (world s))
      as [[[u|e] w1] ev1] eqn:Henf.
    + destruct (for_each (map Config.rule_of_item rest)
                  (enforce popen existing) w1) as [[r2 w2] ev2] eqn:Hrest.
      inversion Hfor; subst r w' ev.
      set (s1 := {| mem := mem s; world := w1; out := out s ++ ev1;
                    ctl := InFor existing a len (S pos) |}).
      destruct (IH (S pos) s1 r2 w2 ev2 eq_refl Hlen Hskip Hrest)
        as (n & s' & He & Hm & Hw & Hr).
      exists (S n), s'. rewrite exec_tick by (rewrite Hc; reflexivity).
      assert (Ht : tick popen s = s1).
      { unfold tick. rewrite Hc, Hlen, Nat.eqb_refl. simpl.
        rewrite Hnth, Henf. reflexivity. }
      rewrite Ht. split; [assumption|]. split; [assumption|].
      split; [assumption|]. simpl in Hr.
      destruct r2; rewrite <- !app_assoc in *; exact Hr.
    + inversion Hfor; subst r w' ev.
      exists 1%nat. eexists. rewrite exec_tick by (rewrite Hc; reflexivity).
      split; [reflexivity|]. unfold tick.
      rewrite Hc, Hlen, Nat.eqb_refl. simpl. rewrite Hnth, Henf. simpl. auto.
Qed.

(** X17. From the top of the loop body, without signal, the ticks do what
    [open_ports] does on the rules of the configuration, and then the
    process is asleep, or has ended with the exception of the pass. *)
Lemma pass_is_open_ports (s : machine W) (r : Py.result unit) (w' : W)
    (ev : list event) :
  ctl s = AtPass ->
  open_ports popen (Config.rules (mem s)) (world s) = (r, w', ev) ->
  exists n s',
    exec popen (repeat Tick n) s = Some s' /\
    mem s' = mem s /\ world s' = w' /\
    match r with
    | Py.Return _ =>
        ctl s' = Sleeping /\
        out s' = out s ++ ev ++ [Print "Sleeping for 5 minutes."; Sleep 300]
    | Py.Raise e => ctl s' = except e /\ out s' = out s ++ ev
    end.
Proof.
  intros Hc Hop. unfold open_ports, bind in Hop.
  destruct (get_existing_rules popen (world s)) as [[[ex|e] w1] ev1] eqn:Hg.
  - destruct (for_each (Config.rules (mem s)) (enforce popen ex) w1)
      as [[r2 w2] ev2] eqn:Hfor.
    inversion Hop; subst r w' ev.
    set (s2 := {| mem := mem s; world := w1; out := out s ++ ev1;
                  ctl := InFor ex (Config._rules (mem s))
                           (List.length (Config.current (mem s))) O |}).
    destruct (@for_loop_ticks ex (Config._rules (mem s))
                (List.length (Config.current (mem s)))
                (Config.current (mem s)) O s2 r2 w2 ev2
                eq_refl eq_refl eq_refl Hfor)
      as (n & s' & He & Hm & Hw & Hr).
    exists (S (S n)), s'.
    rewrite exec_tick by (rewrite Hc; reflexivity).
    assert (Ht : tick popen s
                 = {| mem := mem s; world := w1; out := out s ++ ev1;
                      ctl := AtFor ex |}).
    { unfold tick. rewrite Hc, Hg. reflexivity. }
    rewrite Ht, exec_tick by reflexivity.
    change (tick popen _) with s2.
    split; [assumption|]. split; [assumption|]. split; [assumption|].
    simpl in Hr. destruct r2; rewrite <- !app_assoc in *; exact Hr.
  - inversion Hop; subst r w' ev. exists 1%nat. eexists.
    rewrite exec_tick by (rewrite Hc; reflexivity).
    split; [reflexivity|]. unfold tick. rewrite Hc, Hg. simpl. auto.
Qed.

End PassOfLoop.

(* ================================================================= *)
(** ** The dict of rules: lookup, insertion, deletion *)

Lemma key_eqb_eq (k1 k2 : Config.key) :
  Config.key_eqb k1 k2 = true <-> k1 = k2.
Proof.
  destruct k1 as [p1 q1], k2 as [p2 q2]. unfold Config.key_eqb; simpl.
  rewrite andb_true_iff, Z.eqb_eq, String.eqb_eq. split.
  - intros [-> ->]. reflexivity.
  - intros E; inversion E; auto.
Qed.

Lemma key_eqb_refl (k : Config.key) : Config.key_eqb k k = true.
Proof. apply key_eqb_eq. reflexivity. Qed.

Lemma key_eqb_neq (k1 k2 : Config.key) :
  Config.key_eqb k1 k2 = false <-> k1 <> k2.
Proof.
  rewrite <- key_eqb_eq. destruct (Config.key_eqb k1 k2); split; congruence.
Qed.

Lemma key_eqb_sym (k1 k2 : Config.key) :
  Config.key_eqb k1 k2 = Config.key_eqb k2 k1.
Proof.
  destruct (Config.key_eqb k1 k2) eqn:E1, (Config.key_eqb k2 k1) eqn:E2;
    try reflexivity.
  - apply key_eqb_eq in E1. subst. rewrite key_eqb_refl in E2. discriminate.
  - apply key_eqb_eq in E2. subst. rewrite key_eqb_refl in E1. discriminate.
Qed.

Lemma dict_get_none (k : Config.key) (d : Config.dict) :
  dict_get k d = None <-> ~ In k (map fst d).
Proof.
  induction d as [|[k' v'] d IH]; simpl.
  - split; auto.
  - destruct (Config.key_eqb k k') eqn:E.
    + apply key_eqb_eq in E. subst. split; [discriminate | intros H].
      exfalso. apply H. left. reflexivity.
    + apply key_eqb_neq in E. rewrite IH. split.
      * intros H [H'|H']; [congruence | auto].
      * intros H H'. apply H. right. assumption.
Qed.

Lemma dict_get_in (k : Config.key) (v : Z) (d : Config.dict) :
  dict_get k d = Some v -> In (k, v) d.
Proof.
  induction d as [|[k' v'] d IH]; simpl; [discriminate|].
  destruct (Config.key_eqb k k') eqn:E.
  - apply key_eqb_eq in E. subst. intros H; inversion H; auto.
  - auto.
Qed.

Lemma dict_get_set (k k' : Config.key) (v : Z) (d : Config.dict) :
  dict_get k (Config.dict_set k' v d)
  = if Config.key_eqb k k' then Some v else dict_get k d.
Proof.
  induction d as [|[k0 v0] d IH]; simpl.
  - reflexivity.
  - destruct (Config.key_eqb k' k0) eqn:E0; simpl.
    + apply key_eqb_eq in E0. subst k0.
      destruct (Config.key_eqb k k'); reflexivity.
    + destruct (Config.key_eqb k k0) eqn:E1; [|exact IH].
      apply key_eqb_eq in E1. subst k0.
      rewrite key_eqb_sym, E0. reflexivity.
Qed.

Lemma dict_set_keys (k : Config.key) (v : Z) (d : Config.dict) :
  map fst (Config.dict_set k v d)
  = match dict_get k d with
    | Some _ => map fst d
    | None => map fst d ++ [k]
    end.
Proof.
  induction d as [|[k0 v0] d IH]; simpl; [reflexivity|].
  destruct (Config.key_eqb k k0) eqn:E; simpl; [reflexivity|].
  rewrite IH. destruct (dict_get k d); reflexivity.
Qed.

Lemma dict_set_new (k : Config.key) (v : Z) (d : Config.dict) :
  dict_get k d = None -> Config.dict_set k v d = d ++ [(k, v)].
Proof.
  induction d as [|[k0 v0] d IH]; simpl; [reflexivity|].
  destruct (Config.key_eqb k k0); [discriminate|].
  intros H. rewrite IH by assumption. reflexivity.
Qed.


Lemma dict_set_in (k : Config.key) (v : Z) (d : Config.dict) :
  forall item, In item (Config.dict_set k v d) ->
               item = (k, v) \/ In item d.
Proof.
  induction d as [|[k0 v0] d IH]; simpl; intros item H.
  - destruct H as [H|[]]; auto.
  - destruct (Config.key_eqb k k0) eqn:E; simpl in H.
    + apply key_eqb_eq in E. subst k0. destruct H as [H|H]; auto.
    + destruct H as [H|H]; [auto|]. apply IH in H. tauto.
Qed.

Lemma or_port_kept (e : option Z) (p : Z) :
  Config.or_port e p <> 0 \/ Config.or_port e p = p.
Proof.
  unfold Config.or_port. destruct e as [e|]; [|auto].
  destruct (Z.eqb_spec e 0); auto.
Qed.

Lemma well_kept_nil : well_kept [].
Proof. split; constructor. Qed.

Lemma well_kept_set (k : Config.key) (v : Z) (d : Config.dict) :
  well_kept d -> v <> 0 \/ v = fst k -> well_kept (Config.dict_set k v d).
Proof.
  intros [Hnd Hall] Hv. split.
  - rewrite dict_set_keys. destruct (dict_get k d) eqn:E; [assumption|].
    apply dict_get_none in E.
    apply NoDup_rev in Hnd. rewrite <- (rev_involutive (map fst d ++ [k])).
    apply NoDup_rev. rewrite rev_app_distr. simpl. constructor; [|assumption].
    rewrite <- in_rev. assumption.
  - apply Forall_forall. intros item H. apply dict_set_in in H as [->|H].
    + exact Hv.
    + rewrite Forall_forall in Hall. auto.
Qed.

Lemma dict_del_none (k : Config.key) (d : Config.dict) :
  dict_del k d = None <-> dict_get k d = None.
Proof.
  induction d as [|[k0 v0] d IH]; simpl; [tauto|].
  destruct (Config.key_eqb k k0); [split; discriminate|].
  rewrite <- IH. destruct (dict_del k d); simpl; split; intros H;
    try discriminate; reflexivity.
Qed.

Lemma dict_del_keys (k : Config.key) (d : Config.dict) :
  forall d', dict_del k d = Some d' ->
             forall item, In item d' -> In item d.
Proof.
  induction d as [|[k0 v0] d IH]; simpl; intros d' H item Hin; [discriminate|].
  destruct (Config.key_eqb k k0).
  - inversion H; subst. auto.
  - destruct (dict_del k d) as [d0|]; [|discriminate].
    inversion H; subst. destruct Hin as [Hin|Hin]; [auto|].
    right. eapply IH; eauto.
Qed.

Lemma dict_get_del (k k' : Config.key) (d : Config.dict) :
  NoDup (map fst d) ->
  forall d', dict_del k d = Some d' ->
             dict_get k' d'
             = if Config.key_eqb k' k then None else dict_get k' d.
Proof.
  induction d as [|[k0 v0] d IH]; simpl; intros Hnd d' H; [discriminate|].
  inversion Hnd as [|? ? Hk0 Hnd']; subst.
  destruct (Config.key_eqb k k0) eqn:E.
  - apply key_eqb_eq in E. subst k0. inversion H; subst d'.
    destruct (Config.key_eqb k' k) eqn:E'; [|reflexivity].
    apply key_eqb_eq in E'. subst k'. apply dict_get_none. assumption.
  - destruct (dict_del k d) as [d0|] eqn:Ed; [|discriminate].
    inversion H; subst d'. simpl.
    destruct (Config.key_eqb k' k0) eqn:E0.
    + apply key_eqb_eq in E0. subst k0.
      rewrite key_eqb_sym, E. reflexivity.
    + apply IH; auto.
Qed.

Lemma well_kept_del (k : Config.key) (d d' : Config.dict) :
  well_kept d -> dict_del k d = Some d' -> well_kept d'.
Proof.
  revert d'. induction d as [|[k0 v0] d IH]; simpl; intros d' [Hnd Hall] H;
    [discriminate|].
  inversion Hnd as [|? ? Hk0 Hnd']; subst.
  inversion Hall as [|? ? Hv Hall']; subst.
  destruct (Config.key_eqb k k0).
  - inversion H; subst. split; assumption.
  - destruct (dict_del k d) as [d0|] eqn:Ed; [|discriminate].
    inversion H; subst d'.
    destruct (IH d0 (conj Hnd' Hall') eq_refl) as [Hnd0 Hall0].
    split; [|constructor; assumption].
    simpl. constructor; [|assumption].
    intros Hin. apply Hk0. apply in_map_iff in Hin as (item & <- & Hitem).
    apply in_map. eapply dict_del_keys; eauto.
Qed.

Lemma dict_del_set_new (k : Config.key) (v : Z) (d : Config.dict) :
  dict_get k d = None -> dict_del k (Config.dict_set k v d) = Some d.
Proof.
  induction d as [|[k0 v0] d IH]; simpl.
  - rewrite key_eqb_refl. reflexivity.
  - destruct (Config.key_eqb k k0) eqn:E; [discriminate|].
    intros H. simpl. rewrite E, IH by assumption. reflexivity.
Qed.

(* ================================================================= *)
(** ** Loading, adding, removing, dumping *)

Lemma load_all_well_kept (config : list Config.yaml_rule) :
  forall d d', well_kept d -> load_all config d = Py.Return d' -> well_kept d'.
Proof.
  induction config as [|r config IH]; simpl; intros d d' Hd H.
  - inversion H; subst; assumption.
  - destruct (Config.y_port r) as [p|]; [|discriminate].
    destruct (Config.y_protocol r) as [q|]; [|discriminate].
    eapply IH; [|exact H]. apply well_kept_set; [assumption|].
    apply or_port_kept.
Qed.

Lemma loaded_well_kept (f : Config.config_file) (d : Config.dict) :
  loaded f = Py.Return d -> well_kept d.
Proof.
  destruct f as [|config]; simpl; intros H.
  - inversion H; subst. apply well_kept_nil.
  - eapply load_all_well_kept; [apply well_kept_nil | exact H].
Qed.

Lemma iter_keys (d : Config.dict) :
  map (fun r => (port r, protocol r)) (Config.iter d) = map fst d.
Proof.
  unfold Config.iter. rewrite map_map. apply map_ext.
  intros [[p q] e]. reflexivity.
Qed.

(** Loading what was dumped gives back the dict, item by item. *)
Lemma load_dump (d : Config.dict) :
  forall acc, well_kept (acc ++ d) ->
              load_all (map yaml_of_rule (Config.iter d)) acc
              = Py.Return (acc ++ d).
Proof.
  induction d as [|[[p q] e] d IH]; simpl; intros acc Hk.
  - rewrite app_nil_r. reflexivity.
  - destruct Hk as [Hnd Hall].
    assert (Hnew : dict_get (p, q) acc = None).
    { apply dict_get_none. rewrite map_app in Hnd. simpl in Hnd.
      apply NoDup_remove_2 in Hnd. intros H. apply Hnd.
      apply in_or_app. left. assumption. }
    assert (He : e <> 0 \/ e = p).
    { rewrite Forall_forall in Hall.
      apply (Hall ((p, q), e)). apply in_or_app. right. left. reflexivity. }
    assert (Hor : Config.or_port (if p =? e then None else Some e) p = e).
    { unfold Config.or_port. destruct (Z.eqb_spec p e); [assumption|].
      destruct (Z.eqb_spec e 0); [|reflexivity]. destruct He; congruence. }
    rewrite Hor, (dict_set_new _ _ _ Hnew).
    rewrite IH.
    + rewrite <- app_assoc. reflexivity.
    + rewrite <- app_assoc. split; assumption.
Qed.

Lemma init_refines (f : Config.config_file) :
  match loaded f with
  | Py.Return d =>
      exists m, Config.init f = (Py.Return tt, m) /\
                bound m /\ Config.current m = d
  | Py.Raise e =>
      exists m, Config.init f = (Py.Raise e, m) /\ exists k, e = Py.KeyError k
  end.
Proof.
  unfold Config.init.
  destruct (parse_rules_refines f
              (Config.fresh {| Config.heap := []; Config._rules := O |}))
    as (m & Hb & _ & _ & H).
  destruct (loaded f) as [d|e]; destruct H as [H1 H2]; exists m; auto.
Qed.

Lemma remove_spec (p : Z) (e : option Z) (q : string) (m : Config.mem) :
  bound m ->
  match dict_del (p, q) (Config.current m) with
  | Some d =>
      exists m', Config_remove p e q m = Some m' /\
                 bound m' /\ Config.current m' = d /\ same_but_current m m'
  | None => Config_remove p e q m = None
  end.
Proof.
  intros Hb. unfold Config_remove.
  destruct (dict_del (p, q) (Config.current m)) as [d|]; [|reflexivity].
  eexists. split; [reflexivity|].
  unfold bound, Config.current, Config.deref, same_but_current in *; simpl.
  rewrite update_length. split; [assumption|]. split.
  - apply nth_update_same. assumption.
  - repeat split. intros a Ha. apply nth_update_other. congruence.
Qed.

(** X1. [add], then looking a key up: the key added has the external port
    given, or the port when none or 0 was given; every other key has what
    it had.  A key that was there keeps its place, a new one goes last; the
    other dicts of the store are not touched. *)
Theorem add_then_get (p : Z) (e : option Z) (q : string) (m : Config.mem)
    (k : Config.key) :
  bound m ->
  dict_get k (Config.current (Config.add p e q m))
  = (if Config.key_eqb k (p, q) then Some (Config.or_port e p)
     else dict_get k (Config.current m)) /\
  map fst (Config.current (Config.add p e q m))
  = match dict_get (p, q) (Config.current m) with
    | Some _ => map fst (Config.current m)
    | None => map fst (Config.current m) ++ [(p, q)]
    end /\
  forall a, a <> Config._rules m ->
            Config.deref (Config.add p e q m) a = Config.deref m a.
Proof.
  intros Hb. destruct (add_spec p e q Hb) as (_ & Hcur & _ & _ & Ho).
  rewrite Hcur. split; [apply dict_get_set|]. split; [apply dict_set_keys|].
  exact Ho.
Qed.

Lemma add_then_get_witness :
  let m := snd (Config.init (Config.Document
                  [{| Config.y_port := Some 80;
                      Config.y_external_port := Some 8080;
                      Config.y_protocol := Some "tcp" |}])) in
  dict_get (80, "tcp") (Config.current (Config.add 80 (Some 0) "tcp" m))
  = Some 80.
Proof.
  intros m.
  destruct (@add_then_get 80 (Some 0) "tcp" m (80, "tcp")) as (H & _).
  - unfold bound. vm_compute. lia.
  - exact H.
Defined.

(** X2. The default of the external port: [add] with no external port, with
    external port 0 and with the port itself as external port all leave
    the same store, and the rule iterated for the key then has no
    external-port field; with any other external port it has the field
    with that value. *)
Theorem add_default_external_port (p : Z) (q : string) (m : Config.mem) :
  bound m ->
  Config.add p (Some p) q m = Config.add p None q m /\
  Config.add p (Some 0) q m = Config.add p None q m /\
  In {| port := p; protocol := q; external_port := None |}
     (Config.rules (Config.add p None q m)) /\
  forall e, e <> 0 -> e <> p ->
    In {| port := p; protocol := q; external_port := Some e |}
       (Config.rules (Config.add p (Some e) q m)).
Proof.
  intros Hb.
  assert (Hin : forall e v, Config.or_port e p = v ->
            In (Config.rule_of_item ((p, q), v))
               (Config.rules (Config.add p e q m))).
  { intros e v Hv. unfold Config.rules, Config.iter. apply in_map.
    apply dict_get_in.
    destruct (add_spec p e q Hb) as (_ & H & _).
    rewrite H, dict_get_set, key_eqb_refl, Hv. reflexivity. }
  split; [|split; [|split]].
  - unfold Config.add, Config.or_port.
    destruct (Z.eqb_spec p 0); reflexivity.
  - reflexivity.
  - pose proof (Hin None p eq_refl) as H. simpl in H.
    rewrite Z.eqb_refl in H. exact H.
  - intros e He0 Hep.
    assert (Hor : Config.or_port (Some e) p = e).
    { unfold Config.or_port. destruct (Z.eqb_spec e 0); congruence. }
    pose proof (Hin (Some e) e Hor) as H. simpl in H.
    destruct (Z.eqb_spec p e); [congruence | exact H].
Qed.

Lemma add_default_external_port_witness :
  Config.add 8080 (Some 8080) "tcp" {| Config.heap := [[]]; Config._rules := O |}
  = Config.add 8080 None "tcp" {| Config.heap := [[]]; Config._rules := O |}.
Proof.
  apply (@add_default_external_port 8080 "tcp"
           {| Config.heap := [[]]; Config._rules := O |}).
  unfold bound. simpl. lia.
Defined.

(** X3. A rule set that loads has no two rules with the same port and
    protocol, and [add] and [remove] keep it so. *)
Theorem rules_have_distinct_keys (f : Config.config_file) (m : Config.mem)
    (p : Z) (e : option Z) (q : string) :
  Config.init f = (Py.Return tt, m) ->
  NoDup (map (fun r => (port r, protocol r)) (Config.rules m)) /\
  NoDup (map (fun r => (port r, protocol r))
             (Config.rules (Config.add p e q m))) /\
  forall m', Config_remove p e q m = Some m' ->
             NoDup (map (fun r => (port r, protocol r)) (Config.rules m')).
Proof.
  intros Hinit. pose proof (init_refines f) as H.
  destruct (loaded f) as [d|e0] eqn:El;
    destruct H as (m0 & H0 & H1); rewrite H0 in Hinit; [|discriminate].
  inversion Hinit; subst m0. destruct H1 as [Hb Hcur].
  pose proof (loaded_well_kept _ El) as Hk. rewrite <- Hcur in Hk.
  unfold Config.rules. rewrite !iter_keys. split; [apply Hk|]. split.
  - destruct (add_spec p e q Hb) as (_ & Ha & _). rewrite Ha.
    apply well_kept_set; [assumption | apply or_port_kept].
  - intros m' Hr. rewrite iter_keys.
    pose proof (remove_spec p e q Hb) as Hs.
    destruct (dict_del (p, q) (Config.current m)) as [d'|] eqn:Ed.
    + destruct Hs as (m1 & Hm1 & _ & Hc1 & _).
      rewrite Hm1 in Hr. inversion Hr; subst m1. rewrite Hc1.
      apply (well_kept_del _ Hk Ed).
    + congruence.
Qed.

Lemma rules_have_distinct_keys_witness :
  NoDup (map (fun r => (port r, protocol r))
           (Config.rules
              (snd (Config.init (Config.Document
                 [{| Config.y_port := Some 80;
                     Config.y_external_port := Some 8080;
                     Config.y_protocol := Some "tcp" |};
                  {| Config.y_port := Some 80;
                     Config.y_external_port := None;
                     Config.y_protocol := Some "tcp" |}]))))).
Proof.
  refine (proj1 (@rules_have_distinct_keys
           (Config.Document
                 [{| Config.y_port := Some 80;
                     Config.y_external_port := Some 8080;
                     Config.y_protocol := Some "tcp" |};
                  {| Config.y_port := Some 80;
                     Config.y_external_port := None;
                     Config.y_protocol := Some "tcp" |}])
           (snd (Config.init (Config.Document
                 [{| Config.y_port := Some 80;
                     Config.y_external_port := Some 8080;
                     Config.y_protocol := Some "tcp" |};
                  {| Config.y_port := Some 80;
                     Config.y_external_port := None;
                     Config.y_protocol := Some "tcp" |}])))
           0 None "" _)).
  reflexivity.
Defined.

(** X4. [remove] on a rule set that loaded: it fails, with KeyError, exactly
    when there is no rule for the port and protocol, whatever external
    port is passed; when it succeeds, the key is gone and every other key
    has what it had. *)
Theorem remove_then_get (f : Config.config_file) (m : Config.mem)
    (p : Z) (e : option Z) (q : string) :
  Config.init f = (Py.Return tt, m) ->
  (Config_remove p e q m = None <->
   dict_get (p, q) (Config.current m) = None) /\
  (forall e', Config_remove p e' q m = Config_remove p e q m) /\
  forall m' k,
    Config_remove p e q m = Some m' ->
    dict_get k (Config.current m')
    = if Config.key_eqb k (p, q) then None
      else dict_get k (Config.current m).
Proof.
  intros Hinit. pose proof (init_refines f) as H.
  destruct (loaded f) as [d|e0] eqn:El;
    destruct H as (m0 & H0 & H1); rewrite H0 in Hinit; [|discriminate].
  inversion Hinit; subst m0. destruct H1 as [Hb Hcur].
  pose proof (loaded_well_kept _ El) as [Hnd _]. rewrite <- Hcur in Hnd.
  pose proof (remove_spec p e q Hb) as Hs.
  split; [|split].
  - rewrite <- dict_del_none.
    destruct (dict_del (p, q) (Config.current m)) as [d'|].
    + destruct Hs as (m1 & -> & _). split; discriminate.
    + tauto.
  - reflexivity.
  - intros m' k Hr.
    destruct (dict_del (p, q) (Config.current m)) as [d'|] eqn:Ed;
      [|congruence].
    destruct Hs as (m1 & Hm1 & _ & Hc1 & _).
    rewrite Hm1 in Hr. inversion Hr; subst m1. rewrite Hc1.
    apply (@dict_get_del (p, q) k _ Hnd _ Ed).
Qed.

Lemma remove_then_get_witness :
  Config_remove 53 None "udp"
    (snd (Config.init (Config.Document
            [{| Config.y_port := Some 80;
                Config.y_external_port := Some 8080;
                Config.y_protocol := Some "tcp" |}]))) = None.
Proof.
  refine (proj2 (proj1 (@remove_then_get
            (Config.Document
               [{| Config.y_port := Some 80;
                   Config.y_external_port := Some 8080;
                   Config.y_protocol := Some "tcp" |}])
            (snd (Config.init (Config.Document
               [{| Config.y_port := Some 80;
                   Config.y_external_port := Some 8080;
                   Config.y_protocol := Some "tcp" |}])))
            53 None "udp" _)) _); reflexivity.
Defined.

(** X5. [add] of a rule for a key that has none, then [remove] of the key,
    with whatever external ports: the dict of rules is what it was. *)
Theorem remove_after_add (p : Z) (e e' : option Z) (q : string)
    (m : Config.mem) :
  bound m ->
  dict_get (p, q) (Config.current m) = None ->
  exists m',
    Config_remove p e' q (Config.add p e q m) = Some m' /\
    Config.current m' = Config.current m.
Proof.
  intros Hb Hnone.
  destruct (add_spec p e q Hb) as (Hb' & Hcur & _).
  pose proof (remove_spec p e' q Hb') as Hs.
  rewrite Hcur, (dict_del_set_new _ _ _ Hnone) in Hs.
  destruct Hs as (m' & Hr & _ & Hc & _). eauto.
Qed.

Lemma remove_after_add_witness :
  exists m',
    Config_remove 53 (Some 5353) "udp"
      (Config.add 53 None "udp"
         {| Config.heap := [[((80, "tcp"), 8080)]]; Config._rules := O |})
    = Some m' /\
    Config.current m' = [((80, "tcp"), 8080)].
Proof.
  apply (@remove_after_add 53 None (Some 5353) "udp"
           {| Config.heap := [[((80, "tcp"), 8080)]]; Config._rules := O |}).
  - unfold bound. simpl. lia.
  - reflexivity.
Defined.

Lemma loaded_dump_of (m : Config.mem) (d : Config.dict) :
  Config.current m = d -> well_kept d ->
  loaded (Config_dump_rules m) = Py.Return d.
Proof.
  intros <- Hk. unfold Config_dump_rules, Config.rules. simpl.
  apply (load_dump (Config.current m) []). exact Hk.
Qed.

(** X6. The file [dump_rules] writes for a rule set that loaded, or that came
    from one by [add] or [remove], loads again, to the same rules in the
    same order. *)
Theorem dump_then_load (m : Config.mem) :
  well_kept (Config.current m) ->
  loaded (Config_dump_rules m) = Py.Return (Config.current m) /\
  exists m', Config.init (Config_dump_rules m) = (Py.Return tt, m') /\
             Config.rules m' = Config.rules m.
Proof.
  intros Hk.
  assert (Hl : loaded (Config_dump_rules m) = Py.Return (Config.current m))
    by (apply loaded_dump_of; [reflexivity | exact Hk]).
  split; [exact Hl|].
  pose proof (init_refines (Config_dump_rules m)) as H. rewrite Hl in H.
  destruct H as (m' & Hi & _ & Hc). exists m'. split; [assumption|].
  unfold Config.rules. rewrite Hc. reflexivity.
Qed.

Lemma dump_then_load_witness :
  loaded (Config_dump_rules
            {| Config.heap := [[((80, "tcp"), 8080); ((53, "udp"), 53)]];
               Config._rules := O |})
  = Py.Return [((80, "tcp"), 8080); ((53, "udp"), 53)].
Proof.
  refine (proj1 (@dump_then_load
            {| Config.heap := [[((80, "tcp"), 8080); ((53, "udp"), 53)]];
               Config._rules := O |} _)).
  split.
  - simpl. repeat constructor; simpl; intuition discriminate.
  - repeat constructor; simpl; lia.
Defined.

(* ================================================================= *)
(** ** [configure] *)





(** X8. [configure] with action [del] on a file that loads: without a rule
    for the port and protocol it fails with the KeyError of [remove] and
    writes nothing; with one, it writes a file that loads to the other
    rules, in their order. *)
Theorem configure_del (f : Config.config_file) (d : Config.dict)
    (p : Z) (q : string) (e : option Z) :
  loaded f = Py.Return d ->
  match dict_get (p, q) d with
  | None => configure f "del" p q e = NoSuchRule (p, q)
  | Some _ =>
      exists f' d',
        configure f "del" p q e = Wrote f' /\
        loaded f' = Py.Return d' /\
        forall k, dict_get k d'
                  = if Config.key_eqb k (p, q) then None else dict_get k d
  end.
Proof.
  intros Hl. pose proof (init_refines f) as H. rewrite Hl in H.
  destruct H as (m & Hi & Hb & Hcur).
  pose proof (loaded_well_kept _ Hl) as Hk.
  pose proof (remove_spec p e q Hb) as Hs. rewrite Hcur in Hs.
  unfold configure. rewrite Hi. simpl.
  destruct (dict_get (p, q) d) as [v|] eqn:Eg.
  - destruct (dict_del (p, q) d) as [d'|] eqn:Ed;
      [|apply dict_del_none in Ed; congruence].
    destruct Hs as (m' & Hr & _ & Hc & _). rewrite Hr.
    exists (Config_dump_rules m'), d'. split; [reflexivity|]. split.
    + apply loaded_dump_of; [assumption|]. eapply well_kept_del; eauto.
    + intros k. apply dict_get_del; [apply Hk | assumption].
  - apply dict_del_none in Eg. rewrite Eg in Hs. rewrite Hs. reflexivity.
Qed.

Lemma configure_del_witness :
  configure (Config.Document
               [{| Config.y_port := Some 80;
                   Config.y_external_port := Some 8080;
                   Config.y_protocol := Some "tcp" |}])
    "del" 80 "udp" None = NoSuchRule (80, "udp").
Proof.
  apply (@configure_del (Config.Document
               [{| Config.y_port := Some 80;
                   Config.y_external_port := Some 8080;
                   Config.y_protocol := Some "tcp" |}])
           [((80, "tcp"), 8080)] 80 "udp" None).
  reflexivity.
Defined.

(** X9. [configure] on a file with a record that lacks the port or the
    protocol fails with KeyError, whatever the action, and writes
    nothing. *)
Theorem configure_malformed (f : Config.config_file) (action : string)
    (p : Z) (q : string) (e : option Z) :
  malformed f ->
  exists k, configure f action p q e = LoadFailed (Py.KeyError k).
Proof.
  intros (config & -> & Hbad).
  destruct (load_all_malformed [] Hbad) as (k & Hk).
  pose proof (init_refines (Config.Document config)) as H.
  change (loaded (Config.Document config)) with (load_all config []) in H.
  rewrite Hk in H. destruct H as (m & Hi & _).
  exists k. unfold configure. rewrite Hi. reflexivity.
Qed.

Lemma configure_malformed_witness :
  exists k,
    configure (Config.Document
                 [{| Config.y_port := Some 80;
                     Config.y_external_port := None;
                     Config.y_protocol := None |}])
      "add" 22 "tcp" None = LoadFailed (Py.KeyError k).
Proof.
  apply configure_malformed. eexists. split; [reflexivity|].
  apply Exists_cons_hd. right. reflexivity.
Defined.



(* ================================================================= *)
(** ** [find_config] *)

Lemma find_all_false {A : Type} (f : A -> bool) (l : list A) :
  find f l = None <-> Forall (fun x => f x = false) l.
Proof.
  induction l as [|x l IH]; simpl.
  - split; [constructor | reflexivity].
  - destruct (f x) eqn:E.
    + split; [discriminate | intros H; inversion H; congruence].
    + rewrite IH. split; [constructor; assumption | intros H; inversion H; auto].
Qed.

Lemma find_skips {A : Type} (f : A -> bool) (l1 l2 : list A) :
  Forall (fun x => f x = false) l1 -> find f (l1 ++ l2) = find f l2.
Proof.
  induction 1 as [|x l1 Hx _ IH]; simpl; [reflexivity|].
  rewrite Hx. exact IH.
Qed.

(** X11. Among the configured paths, the last one that is a file is the one
    taken, whatever stands before it. *)
Theorem find_config_takes_last (before after : list path) (p : path) :
  is_file p = true ->
  Forall (fun x => is_file x = false) after ->
  find_config (before ++ p :: after) = Py.Return p.
Proof.
  intros Hp Hafter. unfold find_config.
  rewrite rev_app_distr. simpl. rewrite <- app_assoc. simpl.
  rewrite find_skips.
  - simpl. rewrite Hp. reflexivity.
  - apply Forall_forall. intros x Hx. rewrite <- in_rev in Hx.
    rewrite Forall_forall in Hafter. auto.
Qed.

Lemma find_config_takes_last_witness :
  find_config
    [{| is_file := true; opened := Config.Missing |};
     {| is_file := true; opened := Config.Document [] |};
     {| is_file := false; opened := Config.Missing |}]
  = Py.Return {| is_file := true; opened := Config.Document [] |}.
Proof.
  apply (@find_config_takes_last
           [{| is_file := true; opened := Config.Missing |}]
           [{| is_file := false; opened := Config.Missing |}]
           {| is_file := true; opened := Config.Document [] |}).
  - reflexivity.
  - repeat constructor.
Defined.

(** X12. [find_config] gives one of the configured paths, and one that is a
    file; it raises, the RuntimeError of no configuration, exactly when
    none of the paths is a file, so also for no path at all. *)
Theorem find_config_found_or_none (config_files : list path) :
  match find_config config_files with
  | Py.Return p => In p config_files /\ is_file p = true
  | Py.Raise e =>
      e = no_configuration /\
      Forall (fun x => is_file x = false) config_files
  end.
Proof.
  unfold find_config.
  destruct (find is_file (rev config_files)) as [p|] eqn:E.
  - apply find_some in E as [Hin Hp]. rewrite <- in_rev in Hin. auto.
  - split; [reflexivity|]. apply find_all_false in E.
    apply Forall_forall. intros x Hx. rewrite Forall_forall in E.
    apply E. rewrite <- in_rev. assumption.
Qed.

(* ================================================================= *)
(** ** A pass in full: what is enforced, and where it stops *)

Section FullPass.

Variable W : Type.
Variable popen : list string -> W -> option string * W.

Lemma for_each_app (body : rule -> M W unit) (l1 l2 : list rule) (w : W) :
  for_each (l1 ++ l2) body w
  = bind (for_each l1 body) (fun _ => for_each l2 body) w.
Proof.
  revert w. induction l1 as [|r l1 IH]; intros w; simpl.
  - unfold bind, ret. destruct (for_each l2 body w) as [[x w'] ev].
    reflexivity.
  - unfold bind. destruct (body r w) as [[[u|e] w1] ev1]; [|reflexivity].
    rewrite IH. unfold bind.
    destruct (for_each l1 body w1) as [[[u1|e1] w2] ev2]; [|reflexivity].
    destruct (for_each l2 body w2) as [[x w3] ev3].
    rewrite app_assoc. reflexivity.
Qed.

Lemma for_each_found (existing : list rule) (rules : list rule) :
  (forall r w, In r rules ->
     exists out w', popen (redirect_command r) w = (Some out, w')) ->
  forall w, exists w',
    for_each rules (enforce popen existing) w
    = (Py.Return tt, w', flat_map (rule_events existing) rules).
Proof.
  induction rules as [|r rs IH]; simpl; intros Hfound w.
  - exists w. reflexivity.
  - unfold bind, enforce at 1, rule_events at 1.
    destruct (rule_in r existing) eqn:Hin.
    + destruct (IH (fun r w H => Hfound r w (or_intror H)) w) as (w' & Hrs).
      exists w'. unfold print. rewrite Hrs. reflexivity.
    + destruct (Hfound r w (or_introl eq_refl)) as (o & w1 & Hp).
      destruct (IH (fun r w H => Hfound r w (or_intror H)) w1) as (w' & Hrs).
      exists w'. unfold bind, print, call, ret. rewrite Hp. simpl.
      rewrite Hrs. reflexivity.
Qed.

Lemma tool_calls_rule_events (existing rules : list rule) :
  tool_calls (flat_map (rule_events existing) rules)
  = map redirect_command
      (filter (fun r => negb (rule_in r existing)) rules).
Proof.
  induction rules as [|r rs IH]; simpl; [reflexivity|].
  unfold rule_events at 1. destruct (rule_in r existing); simpl; congruence.
Qed.

End FullPass.

(** X13. The diff of a pass: with a listing that parses and the tool found at
    each invocation, the pass returns, and after the list call it calls
    the tool for exactly the desired rules that are not in the listing, in
    their order, once each; the rules that are in the listing are reported
    as skipped. *)
Theorem pass_enforces_what_is_missing (W : Type)
    (popen : list string -> W -> option string * W)
    (rules : list rule) (w w1 : W) (output : string) (existing : list rule) :
  popen list_command w = (Some output, w1) ->
  parse_listing output = Py.Return existing ->
  (forall r w, In r rules ->
     exists out w', popen (redirect_command r) w = (Some out, w')) ->
  exists w2 ev,
    open_ports popen rules w = (Py.Return tt, w2, ev) /\
    ev = Exec list_command :: flat_map (rule_events existing) rules /\
    tool_calls ev
    = list_command
      :: map redirect_command
           (filter (fun r => negb (rule_in r existing)) rules).
Proof.
  intros Hp Hl Hfound.
  destruct (for_each_found popen existing rules Hfound w1) as (w2 & Hfor).
  exists w2, (Exec list_command :: flat_map (rule_events existing) rules).
  rewrite (open_ports_listed popen _ _ Hp Hl), Hfor.
  split; [reflexivity|]. split; [reflexivity|].
  simpl. rewrite tool_calls_rule_events. reflexivity.
Qed.

Lemma pass_enforces_what_is_missing_witness :
  exists w2 ev,
    open_ports (answering "1 TCP 8080->192.168.1.5:80")
      (Config.iter [((80, "tcp"), 8080); ((53, "udp"), 53)]) tt
    = (Py.Return tt, w2, ev) /\
    tool_calls ev = [list_command; ["upnpc"; "-r"; "53"; "udp"]].
Proof.
  destruct (@pass_enforces_what_is_missing unit
              (answering "1 TCP 8080->192.168.1.5:80")
              (Config.iter [((80, "tcp"), 8080); ((53, "udp"), 53)]) tt tt
              "1 TCP 8080->192.168.1.5:80"
              [{| port := 80; protocol := "tcp";
                  external_port := Some 8080 |}])
    as (w2 & ev & H1 & _ & H3).
  - reflexivity.
  - vm_compute. reflexivity.
  - intros r w _. exists "1 TCP 8080->192.168.1.5:80", tt. reflexivity.
  - exists w2, ev. split; [exact H1 | exact H3].
Defined.

(** X14. A pass stops at the first invocation for which the tool is not found:
    the rules before it have been dealt with, and their redirections
    stay; the rule at which it failed has been announced and called for;
    the rules after it are neither reported nor called for, and the fault
    is raised. *)
Theorem pass_stops_at_first_fault (W : Type)
    (popen : list string -> W -> option string * W)
    (before after : list rule) (r : rule)
    (w w1 : W) (output : string) (existing : list rule) :
  popen list_command w = (Some output, w1) ->
  parse_listing output = Py.Return existing ->
  (forall r' w, In r' before ->
     exists out w', popen (redirect_command r') w = (Some out, w')) ->
  rule_in r existing = false ->
  (forall w, exists w', popen (redirect_command r) w = (None, w')) ->
  exists w2,
    open_ports popen (before ++ r :: after) w
    = (Py.Raise tool_unavailable, w2,
       Exec list_command
       :: flat_map (rule_events existing) before ++ enforced r).
Proof.
  intros Hp Hl Hfound Hin Hfail.
  destruct (for_each_found popen existing before Hfound w1) as (w2 & Hfor).
  destruct (Hfail w2) as (w3 & Hr).
  exists w3. rewrite (open_ports_listed popen _ _ Hp Hl).
  rewrite for_each_app. unfold bind at 1. rewrite Hfor. simpl.
  unfold bind, enforce at 1. rewrite Hin.
  unfold bind, print, call. rewrite Hr. reflexivity.
Qed.

Lemma pass_stops_at_first_fault_witness :
  exists w2,
    open_ports (answering_but "none" ["upnpc"; "-r"; "53"; "udp"])
      ([{| port := 80; protocol := "tcp"; external_port := Some 8080 |}]
       ++ {| port := 53; protocol := "udp"; external_port := None |}
       :: [{| port := 22; protocol := "tcp"; external_port := None |}]) tt
    = (Py.Raise tool_unavailable, w2,
       [Exec list_command;
        Print "enforcing rule 80->8080 tcp";
        Exec ["upnpc"; "-r"; "80"; "8080"; "tcp"];
        Print "enforcing rule 53->53 udp";
        Exec ["upnpc"; "-r"; "53"; "udp"]]).
Proof.
  apply (@pass_stops_at_first_fault unit
           (answering_but "none" ["upnpc"; "-r"; "53"; "udp"])
           [{| port := 80; protocol := "tcp"; external_port := Some 8080 |}]
           [{| port := 22; protocol := "tcp"; external_port := None |}]
           {| port := 53; protocol := "udp"; external_port := None |}
           tt tt "none" []).
  - reflexivity.
  - reflexivity.
  - intros r' w [<-|[]]. exists "none", tt. reflexivity.
  - reflexivity.
  - intros w. exists tt. reflexivity.
Defined.

(* ================================================================= *)
(** ** What a load and a reload leave in the store *)






Lemma pass_is_open_ports_witness :
  let s := {| mem := {| Config.heap := [[((80, "tcp"), 8080)]];
                        Config._rules := O |};
              world := tt; out := []; ctl := AtPass |} in
  exists n s',
    exec (answering "1 TCP 8080->192.168.1.5:80") (repeat Tick n) s = Some s' /\
    ctl s' = Sleeping /\
    out s' = [Exec list_command; Print "skipping rule 80->8080 tcp";
              Print "Sleeping for 5 minutes."; Sleep 300].
Proof.
  intros s.
  destruct (@pass_is_open_ports unit (answering "1 TCP 8080->192.168.1.5:80")
              s (Py.Return tt) tt
              [Exec list_command; Print "skipping rule 80->8080 tcp"])
    as (n & s' & He & _ & _ & Hc & Ho).
  - reflexivity.
  - vm_compute. reflexivity.
  - exists n, s'. split; [exact He|]. split; [exact Hc | exact Ho].
Defined.

(* ================================================================= *)
(** ** [str] and [int] of a port *)

Section Decimal.

Import Decimal.

Lemma int_digits_step (c : ascii) (k acc : Z) (prev : bool) (s : string) :
  Py.is_digit c = true -> Py.digit_val c = k ->
  Py.int_digits acc prev (String c s) = Py.int_digits (10 * acc + k) true s.
Proof. intros Hd <-. simpl. rewrite Hd. reflexivity. Qed.

Lemma int_digits_acc (u : uint) :
  forall acc : positive,
    Py.int_digits (Z.pos acc) true (NilEmpty.string_of_uint u)
    = Some (Z.pos (Pos.of_uint_acc u acc)).
Proof.
  induction u; intros acc; [reflexivity|..];
    cbn [NilEmpty.string_of_uint Pos.of_uint_acc];
    rewrite <- IHu;
    match goal with
    | |- Py.int_digits _ _ (String ?c _) = _ =>
        rewrite (@int_digits_step c (Py.digit_val c)) by reflexivity
    end;
    f_equal;
    match goal with
    | |- context [Py.digit_val ?c] =>
        let v := eval vm_compute in (Py.digit_val c) in
        change (Py.digit_val c) with v
    end; lia.
Qed.

Lemma int_digits_uint (u : uint) :
  forall prev, u <> Nil \/ prev = true ->
    Py.int_digits 0 prev (NilEmpty.string_of_uint u)
    = Some (Z.of_N (Pos.of_uint u)).
Proof.
  induction u; intros prev H;
    cbn [NilEmpty.string_of_uint Pos.of_uint Z.of_N].
  - destruct H as [H| ->]; [congruence | reflexivity].
  - rewrite (@int_digits_step "0" 0) by reflexivity. apply IHu. auto.
  - rewrite (@int_digits_step "1" 1) by reflexivity. apply int_digits_acc.
  - rewrite (@int_digits_step "2" 2) by reflexivity. apply int_digits_acc.
  - rewrite (@int_digits_step "3" 3) by reflexivity. apply int_digits_acc.
  - rewrite (@int_digits_step "4" 4) by reflexivity. apply int_digits_acc.
  - rewrite (@int_digits_step "5" 5) by reflexivity. apply int_digits_acc.
  - rewrite (@int_digits_step "6" 6) by reflexivity. apply int_digits_acc.
  - rewrite (@int_digits_step "7" 7) by reflexivity. apply int_digits_acc.
  - rewrite (@int_digits_step "8" 8) by reflexivity. apply int_digits_acc.
  - rewrite (@int_digits_step "9" 9) by reflexivity. apply int_digits_acc.
Qed.

Lemma string_of_uint_digits (u : uint) :
  all_digits (NilEmpty.string_of_uint u) = true.
Proof. induction u; simpl; auto. Qed.

End Decimal.

Lemma digit_plain (c : ascii) : Py.is_digit c = true -> plain c = true.
Proof.
  destruct c as [[|] [|] [|] [|] [|] [|] [|] [|]];
    vm_compute; intros H; congruence.
Qed.

Lemma all_digits_token (s : string) : all_digits s = true -> token s = true.
Proof.
  induction s as [|c s IH]; simpl; [reflexivity|].
  intros H. apply andb_true_iff in H as [Hc Hs].
  rewrite (digit_plain _ Hc), IH by assumption. reflexivity.
Qed.

Lemma plain_not_space (c : ascii) : plain c = true -> Py.is_space c = false.
Proof.
  unfold plain. destruct (Py.is_space c); [discriminate | reflexivity].
Qed.

Lemma token_strip (s : string) :
  token s = true -> Py.lstrip s = s /\ Py.rstrip s = s.
Proof.
  intros H. split.
  - destruct s as [|c s]; simpl in *; [reflexivity|].
    apply andb_true_iff in H as [Hc _].
    rewrite (plain_not_space _ Hc). reflexivity.
  - induction s as [|c s IH]; simpl in *; [reflexivity|].
    apply andb_true_iff in H as [Hc Hs].
    rewrite (plain_not_space _ Hc), IH by assumption. reflexivity.
Qed.

Lemma int_of_digits (s : string) :
  all_digits s = true -> Py.int s = Py.int_digits 0 false s.
Proof.
  intros H. unfold Py.int.
  destruct (token_strip _ (all_digits_token _ H)) as [-> ->].
  destruct s as [|c s]; [reflexivity|]. simpl in H.
  apply andb_true_iff in H as [Hc _]. revert Hc.
  destruct c as [[|] [|] [|] [|] [|] [|] [|] [|]];
    vm_compute Py.is_digit; intros Hc; try discriminate; reflexivity.
Qed.

Lemma str_of_positive (p : positive) :
  Py.str (Z.pos p) = NilEmpty.string_of_uint (Pos.to_uint p) /\
  Pos.to_uint p <> Decimal.Nil.
Proof.
  assert (Hnil : Pos.to_uint p <> Decimal.Nil).
  { intros E. pose proof (Unsigned.of_to p) as H. rewrite E in H.
    discriminate. }
  split; [|assumption]. unfold Py.str. simpl.
  unfold NilZero.string_of_uint.
  destruct (Pos.to_uint p); [congruence|reflexivity..].
Qed.

(** The decimal notation of a port that is not negative is made of digits
    only, and [int] reads it back. *)
Lemma int_str (n : Z) :
  0 <= n ->
  Py.int (Py.str n) = Some n /\
  all_digits (Py.str n) = true /\ Py.str n <> EmptyString.
Proof.
  intros Hn. destruct n as [|p|p]; [|clear Hn|lia].
  - split; [reflexivity | split; [reflexivity | discriminate]].
  - destruct (str_of_positive p) as [-> Hnil].
    pose proof (string_of_uint_digits (Pos.to_uint p)) as Hd.
    split; [|split; [assumption|]].
    + rewrite (int_of_digits _ Hd), int_digits_uint by auto.
      rewrite Unsigned.of_to. reflexivity.
    + destruct (Pos.to_uint p); [congruence|discriminate..].
Qed.

(* ================================================================= *)
(** ** A line of the listing, token by token *)

Section Tokens.

Import Regex.

Lemma re_split_plain (c : ascii) (b : bool) (s : string) :
  plain c = true ->
  re_split_from b (String c s) = Py.cons_char c (re_split_from false s).
Proof.
  unfold plain. intros H.
  apply andb_true_iff in H as [H H3]. apply andb_true_iff in H as [H1 H2].
  apply negb_true_iff in H1, H2, H3.
  cbn [re_split_from]. rewrite H1, H2, H3. reflexivity.
Qed.

Lemma re_split_at_separator (rest : string) :
  at_separator rest = true ->
  exists l, re_split_from false rest = EmptyString :: l.
Proof.
  destruct rest as [|c s]; [eexists; reflexivity|].
  cbn [at_separator re_split_from].
  destruct (Py.is_space c); [eexists; reflexivity|].
  destruct (c =? ":")%char; [eexists; reflexivity|].
  destruct (c =? "-")%char; [|discriminate]. simpl.
  destruct s as [|c' s]; [discriminate|].
  destruct c' as [[|] [|] [|] [|] [|] [|] [|] [|]]; try discriminate.
  eexists; reflexivity.
Qed.

Lemma re_split_word (t rest : string) (l : list string) :
  word t = true ->
  re_split_from false rest = EmptyString :: l ->
  forall b, re_split_from b (t ++ rest) = t :: l.
Proof.
  unfold word. intros H Hrest. apply andb_true_iff in H as [Ht Hne].
  induction t as [|c t IH]; [discriminate|]. intros b.
  simpl in Ht. apply andb_true_iff in Ht as [Hc Ht].
  change (String c t ++ rest)%string with (String c (t ++ rest)).
  rewrite re_split_plain by exact Hc.
  destruct t as [|c' t'].
  - simpl. rewrite Hrest. reflexivity.
  - rewrite IH by (assumption || reflexivity). reflexivity.
Qed.

Lemma re_split_run (sp rest : string) :
  all_space sp = true ->
  match rest with
  | EmptyString => true
  | String c _ => negb (Py.is_space c)
  end = true ->
  re_split_from true (sp ++ rest) = re_split_from false rest.
Proof.
  intros Hsp Hrest. induction sp as [|c sp IH]; simpl in *.
  - destruct rest as [|c r]; [reflexivity|].
    apply negb_true_iff in Hrest. cbn [re_split_from]. rewrite Hrest.
    reflexivity.
  - apply andb_true_iff in Hsp as [Hc Hsp]. rewrite Hc. auto.
Qed.

Lemma word_starts (w r : string) :
  word w = true ->
  match (w ++ r)%string with
  | EmptyString => true
  | String c _ => negb (Py.is_space c)
  end = true.
Proof.
  unfold word. destruct w as [|c w]; simpl; [discriminate|].
  intros H. apply andb_true_iff in H as [H _].
  apply andb_true_iff in H as [H _].
  rewrite (plain_not_space _ H). reflexivity.
Qed.

Lemma re_split_blank (sp w r : string) :
  blank sp = true -> word w = true ->
  re_split_from false (sp ++ w ++ r)
  = EmptyString :: re_split_from false (w ++ r).
Proof.
  unfold blank. intros H Hw. apply andb_true_iff in H as [Hsp Hne].
  destruct sp as [|c sp]; [discriminate|]. simpl in Hsp.
  apply andb_true_iff in Hsp as [Hc Hsp].
  change (String c sp ++ w ++ r)%string with (String c (sp ++ w ++ r)).
  cbn [re_split_from]. rewrite Hc.
  rewrite re_split_run by (assumption || apply word_starts; assumption).
  reflexivity.
Qed.

Lemma re_split_lead (lead w r : string) :
  all_space lead = true -> word w = true ->
  tokens (lead ++ w ++ r) = re_split_from false (w ++ r).
Proof.
  intros Hl Hw. unfold tokens, re_split.
  destruct lead as [|c lead].
  - simpl. destruct (re_split_at_separator EmptyString eq_refl) as (l & _).
    unfold word in Hw. destruct w as [|c w]; [discriminate|].
    apply andb_true_iff in Hw as [Hw _]. simpl in Hw.
    apply andb_true_iff in Hw as [Hc _].
    change (String c w ++ r)%string with (String c (w ++ r)).
    rewrite re_split_plain by exact Hc.
    destruct (re_split_from false (w ++ r)); reflexivity.
  - rewrite re_split_blank; [reflexivity| |assumption].
    unfold blank. rewrite Hl. reflexivity.
Qed.

Lemma last_digit (s : string) :
  all_digits s = true -> s <> EmptyString ->
  exists s' d, s = (s' ++ String d EmptyString)%string /\
               Py.is_digit d = true.
Proof.
  induction s as [|c s IH]; [congruence|]. simpl. intros H _.
  apply andb_true_iff in H as [Hc Hs].
  destruct s as [|c' s'].
  - exists EmptyString, c. auto.
  - destruct (IH Hs) as (s0 & d & E & Hd); [discriminate|].
    exists (String c s0), d. rewrite E. auto.
Qed.

Lemma split_lines_single (s : string) :
  newline_free s = true -> Py.split_lines s = [s].
Proof.
  induction s as [|c s IH]; simpl; [reflexivity|].
  intros H. apply andb_true_iff in H as [Hc Hs].
  apply negb_true_iff in Hc. rewrite Hc, IH by assumption. reflexivity.
Qed.

Lemma word_of_port (n : Z) : 0 <= n -> word (Py.str n) = true.
Proof.
  intros Hn. destruct (int_str Hn) as (_ & Hd & Hne).
  unfold word. rewrite (all_digits_token _ Hd).
  destruct (Py.str n); [congruence | reflexivity].
Qed.

End Tokens.

(** X18. A line of the listing as the tool prints it parses to the rule it
    shows.  The line: white space or none, an index, white space, the
    protocol, white space, the external port, [->], the address, [:], the
    internal port, and then nothing or white space and anything; index,
    protocol and address being tokens that are not empty, the ports
    decimal and not negative.  The rule: the internal port, the protocol
    in lower case, and the external port when it differs from the
    internal one. *)
Theorem listing_line_parses
    (lead idx sp1 proto sp2 addr tail : string) (e p : Z) :
  all_space lead = true -> word idx = true -> blank sp1 = true ->
  word proto = true -> blank sp2 = true -> 0 <= e ->
  word addr = true -> 0 <= p -> at_separator tail = true ->
  let line :=
    (lead ++ idx ++ sp1 ++ proto ++ sp2 ++ Py.str e ++ "->"
     ++ addr ++ ":" ++ Py.str p ++ tail)%string in
  newline_free line = true ->
  parse_listing line
  = Py.Return [{| port := p;
                  protocol := Py.lower proto;
                  external_port := if e =? p then None else Some e |}].
Proof.
  intros Hlead Hidx Hsp1 Hproto Hsp2 He Haddr Hp Htail line Hnl.
  pose proof (word_of_port He) as Hwe. pose proof (word_of_port Hp) as Hwp.
  assert (Htok : exists l,
             tokens line = idx :: proto :: Py.str e :: addr :: Py.str p :: l).
  { destruct (re_split_at_separator _ Htail) as (l & Hl). exists l.
    unfold line. rewrite re_split_lead by assumption.
    erewrite re_split_word;
      [|exact Hidx | apply re_split_blank; assumption].
    erewrite re_split_word;
      [|exact Hproto | apply re_split_blank; assumption].
    erewrite (@re_split_word (Py.str e)); [|exact Hwe | reflexivity].
    erewrite (@re_split_word addr); [|exact Haddr | reflexivity].
    erewrite re_split_word; [|exact Hwp | exact Hl]. reflexivity. }
  assert (Hkeep : Regex.re_match Regex.digit_arrow line = true).
  { apply digit_arrow_keeps; [assumption|].
    destruct (int_str He) as (_ & Hd & Hne).
    destruct (@last_digit (Py.str e) Hd Hne) as (s' & d & Es & Hdg).
    exists (lead ++ idx ++ sp1 ++ proto ++ sp2 ++ s')%string, d,
           (addr ++ ":" ++ Py.str p ++ tail)%string.
    split; [|assumption]. unfold line. rewrite Es.
    rewrite !str_app_assoc. reflexivity. }
  unfold parse_listing. rewrite (split_lines_single _ Hnl).
  unfold keep_lines. simpl. rewrite Hkeep. simpl.
  destruct Htok as (l & Htok). unfold parse_rule_str. rewrite Htok.
  unfold Py.index, Py.int_of. simpl.
  destruct (int_str He) as (-> & _). destruct (int_str Hp) as (-> & _).
  reflexivity.
Qed.

Lemma listing_line_parses_witness :
  parse_listing " 0 TCP  8080->192.168.1.5:80    'web' '' 0"
  = Py.Return [{| port := 80; protocol := "tcp";
                  external_port := Some 8080 |}].
Proof.
  apply (@listing_line_parses " " "0" " " "TCP" "  " "192.168.1.5"
           "    'web' '' 0" 8080 80); try reflexivity; lia.
Defined.

(** X19. A line without the index, the protocol coming first, is kept and makes
    the list call fail with IndexError: the ports are read at the third and
    fifth token, and such a line has four. *)
Theorem line_without_index_fails
    (lead proto sp addr : string) (e p : Z) :
  all_space lead = true -> word proto = true -> blank sp = true ->
  0 <= e -> word addr = true -> 0 <= p ->
  let line :=
    (lead ++ proto ++ sp ++ Py.str e ++ "->" ++ addr ++ ":" ++ Py.str p)%string in
  newline_free line = true ->
  parse_listing line = Py.Raise Py.IndexError.
Proof.
  intros Hlead Hproto Hsp He Haddr Hp line Hnl.
  pose proof (word_of_port He) as Hwe. pose proof (word_of_port Hp) as Hwp.
  assert (Htok : tokens line = [proto; Py.str e; addr; Py.str p]).
  { unfold line. rewrite re_split_lead by assumption.
    erewrite re_split_word;
      [|exact Hproto | apply re_split_blank; assumption].
    erewrite (@re_split_word (Py.str e)); [|exact Hwe | reflexivity].
    erewrite (@re_split_word addr); [|exact Haddr | reflexivity].
    rewrite <- (str_app_nil_r (Py.str p)).
    erewrite re_split_word; [|exact Hwp | reflexivity].
    rewrite str_app_nil_r. reflexivity. }
  assert (Hkeep : Regex.re_match Regex.digit_arrow line = true).
  { apply digit_arrow_keeps; [assumption|].
    destruct (int_str He) as (_ & Hd & Hne).
    destruct (@last_digit (Py.str e) Hd Hne) as (s' & d & Es & Hdg).
    exists (lead ++ proto ++ sp ++ s')%string, d,
           (addr ++ ":" ++ Py.str p)%string.
    split; [|assumption]. unfold line. rewrite Es.
    rewrite !str_app_assoc. reflexivity. }
  unfold parse_listing. rewrite (split_lines_single _ Hnl).
  unfold keep_lines. simpl. rewrite Hkeep. simpl.
  unfold parse_rule_str. rewrite Htok. reflexivity.
Qed.

Lemma line_without_index_fails_witness :
  parse_listing "UDP 53->192.168.1.5:53" = Py.Raise Py.IndexError.
Proof.
  apply (@line_without_index_fails "" "UDP" " " "192.168.1.5" 53 53);
    try reflexivity; lia.
Defined.

(* ================================================================= *)
(** ** Records for the same port and protocol *)

Lemma load_all_app (c1 c2 : list Config.yaml_rule) :
  forall d,
    load_all (c1 ++ c2) d
    = match load_all c1 d with
      | Py.Return d1 => load_all c2 d1
      | Py.Raise e => Py.Raise e
      end.
Proof.
  induction c1 as [|r c1 IH]; simpl; intros d; [reflexivity|].
  destruct (Config.y_port r); [|reflexivity].
  destruct (Config.y_protocol r); [|reflexivity]. apply IH.
Qed.

Lemma load_all_other_keys (k : Config.key) (c : list Config.yaml_rule) :
  forall d d',
    load_all c d = Py.Return d' ->
    Forall (fun r => ~ (Config.y_port r = Some (fst k) /\
                        Config.y_protocol r = Some (snd k))) c ->
    dict_get k d' = dict_get k d.
Proof.
  induction c as [|r c IH]; simpl; intros d d' H Hall.
  - inversion H; reflexivity.
  - inversion Hall as [|? ? Hr Hc]; subst.
    destruct (Config.y_port r) as [p|] eqn:Ep; [|discriminate].
    destruct (Config.y_protocol r) as [q|] eqn:Eq; [|discriminate].
    rewrite (IH _ _ H Hc), dict_get_set.
    destruct (Config.key_eqb k (p, q)) eqn:E; [|reflexivity].
    apply key_eqb_eq in E. subst k. exfalso. apply Hr. auto.
Qed.

(** X20. When the file has several records for one port and protocol, the last
    of them gives the external port of the rule. *)
Theorem load_last_record_wins (c1 c2 : list Config.yaml_rule)
    (r : Config.yaml_rule) (p : Z) (q : string) (m : Config.mem) :
  Config.init (Config.Document (c1 ++ r :: c2)) = (Py.Return tt, m) ->
  Config.y_port r = Some p -> Config.y_protocol r = Some q ->
  Forall (fun r' => ~ (Config.y_port r' = Some p /\
                       Config.y_protocol r' = Some q)) c2 ->
  dict_get (p, q) (Config.current m)
  = Some (Config.or_port (Config.y_external_port r) p).
Proof.
  intros Hinit Hp Hq Hlast.
  pose proof (init_refines (Config.Document (c1 ++ r :: c2))) as H.
  destruct (loaded (Config.Document (c1 ++ r :: c2))) as [d|e] eqn:El;
    destruct H as (m0 & H0 & H1); rewrite H0 in Hinit; [|discriminate].
  inversion Hinit; subst m0. destruct H1 as [_ ->].
  change (loaded (Config.Document (c1 ++ r :: c2)))
    with (load_all (c1 ++ r :: c2) []) in El.
  rewrite load_all_app in El.
  destruct (load_all c1 []) as [d1|]; [|discriminate].
  simpl in El. rewrite Hp, Hq in El.
  rewrite (@load_all_other_keys (p, q) c2 _ _ El Hlast), dict_get_set.
  rewrite key_eqb_refl. reflexivity.
Qed.

Lemma load_last_record_wins_witness :
  dict_get (80, "tcp")
    (Config.current
       (snd (Config.init (Config.Document
          ([{| Config.y_port := Some 80;
               Config.y_external_port := Some 8080;
               Config.y_protocol := Some "tcp" |}]
           ++ {| Config.y_port := Some 80;
                 Config.y_external_port := Some 9090;
                 Config.y_protocol := Some "tcp" |}
           :: [{| Config.y_port := Some 53;
                  Config.y_external_port := None;
                  Config.y_protocol := Some "udp" |}])))))
  = Some 9090.
Proof.
  apply (@load_last_record_wins
           [{| Config.y_port := Some 80;
               Config.y_external_port := Some 8080;
               Config.y_protocol := Some "tcp" |}]
           [{| Config.y_port := Some 53;
               Config.y_external_port := None;
               Config.y_protocol := Some "udp" |}]
           {| Config.y_port := Some 80;
              Config.y_external_port := Some 9090;
              Config.y_protocol := Some "tcp" |} 80 "tcp").
  - reflexivity.
  - reflexivity.
  - reflexivity.
  - constructor; [|constructor]. simpl. intros [H _]. discriminate.
Defined.
